(** * Route Finder: the planner session of MapComponent

    A shallow embedding of the route-planning logic of
    [src/Components/MapComponent.js] (the hook-based component built on
    [useRoutePlanner]) and of the flat component that keeps one [useState]
    cell per field, together with the properties of the session state
    machine: guards of the route fetch, conversion of the directions
    response, candidate selection, reset, address search, and the
    agreement of the two components. *)

From Stdlib Require Import ZArith QArith Qabs Lia SpecFloat Ascii String DecimalString.
From Stdlib Require Import DecimalPos DecimalN.
From stdpp Require Import base option list strings.

Local Open Scope Z_scope.
Local Open Scope string_scope.
Local Open Scope list_scope.

(** ** JavaScript numbers

    A JS number is an IEEE 754 binary64 value.  [spec_float] holds the sign,
    the integer significand and the binary exponent, so that the finite
    value [S754_finite s m e] is [(-1)^s * m * 2^e]. *)

Module Num.

Definition number := spec_float.

Definition prec : Z := 53.
Definition emax : Z := 1024.

(** The number denoted by an integer literal. *)
Definition of_Z (z : Z) : number := binary_normalize prec emax z 0 false.

(** [x / y] *)
Definition div (x y : number) : number := SFdiv prec emax x y.

(** The magnitude [m * 2^e] of a finite number, as a rational. *)
Definition magnitude (x : number) : Q :=
  match x with
  | S754_finite _ m (Zneg p) => Z.pos m # 2 ^ p
  | S754_finite _ m e => inject_Z (Z.pos m * 2 ^ e)
  | _ => 0%Q
  end.

(** Decimal digits of a non-negative integer; ["0"] for zero. *)
Definition digits (n : Z) : string :=
  NilZero.string_of_uint (N.to_uint (Z.to_N n)).

(** The integer [n] for which [n / 100 - m * 2^e] is as close to zero as
    possible, the larger one when there are two (step 10.a of
    Number.prototype.toFixed with [f = 2]). *)
Definition nearest_hundredths (m : positive) (e : Z) : Z :=
  match e with
  | Z0 => 100 * Z.pos m
  | Zpos p => 100 * Z.pos m * 2 ^ Z.pos p
  | Zneg p => (200 * Z.pos m + 2 ^ Z.pos p) / 2 ^ (Z.pos p + 1)
  end.

Fixpoint zeros (k : nat) : string :=
  match k with
  | O => ""
  | S k => String "0"%char (zeros k)
  end.

(** Steps 10.b-10.d of toFixed with [f = 2]: pad the digits of [n] with
    zeros to three characters at least and put the point before the last
    two. *)
Definition fixed2 (n : Z) : string :=
  let m := digits n in
  let m := zeros (3 - String.length m) +:+ m in
  let k := String.length m in
  substring 0 (k - 2) m +:+ "." +:+ substring (k - 2) 2 m.

(** [10^21 <= m * 2^e], the bound from which toFixed falls back to
    Number::toString. *)
Definition at_least_1e21 (m : positive) (e : Z) : bool :=
  match e with
  | Zneg _ => false
  | _ => (10 ^ 21 <=? Z.pos m * 2 ^ e)%Z
  end.

(** *** Number::toString above [10^21]

    For [x >= 10^21] toFixed returns Number::toString(x): the shortest
    decimal significand [s] (of [k] digits) and the exponent [n] with
    [s * 10^(n-k)] rounding to [x], the closest to [x] when several have
    [k] digits, the even one on a tie, printed as [d.ddde+(n-1)].  Such an
    [x] is an integer and so are the midpoints to its neighbours. *)

(** The significand brought to [prec] bits. *)
Definition normalized (m : positive) (e : Z) : Z * Z :=
  let d := prec - Z.log2 (Z.pos m) - 1 in
  if (0 <? d)%Z then (Z.pos m * 2 ^ d, e - d) else (Z.pos m, e).

(** Does the integer [v] round to [x = m * 2^e] (round to nearest, ties to
    even; [m] normalized, [2 <= e])? *)
Definition rounds_to (m e v : Z) : bool :=
  let x := m * 2 ^ e in
  let up := 2 ^ (e - 1) in
  let down := if (m =? 2 ^ (prec - 1))%Z then 2 ^ (e - 2) else 2 ^ (e - 1) in
  if Z.even m
  then ((x - down <=? v) && (v <=? x + up))%Z
  else ((x - down <? v) && (v <? x + up))%Z.

(** The candidate significand with [k] digits, when there is one:
    [nd] is the number of digits of [x]. *)
Definition candidate (m e : Z) (nd k : Z) : option Z :=
  let x := m * 2 ^ e in
  let step := 10 ^ (nd - k) in
  let s0 := x / step in
  let ok0 := rounds_to m e (s0 * step) in
  let ok1 := rounds_to m e ((s0 + 1) * step) in
  let d0 := x - s0 * step in
  let d1 := (s0 + 1) * step - x in
  match ok0, ok1 with
  | true, true =>
      if (d0 <? d1)%Z then Some s0
      else if (d1 <? d0)%Z then Some (s0 + 1)
      else if Z.even s0 then Some s0 else Some (s0 + 1)
  | true, false => Some s0
  | false, true => Some (s0 + 1)
  | false, false => None
  end.

(** Tries [k], [k + 1], ... and returns the significand and [n]. *)
Fixpoint shortest (fuel : nat) (m e : Z) (nd k : Z) : Z * Z :=
  match fuel with
  | O => (m * 2 ^ e, nd)
  | S fuel =>
      match candidate m e nd k with
      | Some s => if (s =? 10 ^ k)%Z then (1, nd + 1) else (s, nd)
      | None => shortest fuel m e nd (k + 1)
      end
  end.

Definition exponential (m : positive) (e : Z) : string :=
  let '(m, e) := normalized m e in
  let nd := Z.of_nat (String.length (digits (m * 2 ^ e))) in
  let '(s, n) := shortest 17 m e nd 1 in
  let ds := digits s in
  let mant := if (String.length ds =? 1)%nat then ds
              else substring 0 1 ds +:+ "." +:+
                   substring 1 (String.length ds - 1) ds in
  mant +:+ "e+" +:+ digits (n - 1).

(** The sign that toFixed prints. *)
Definition sign_prefix (x : number) : string :=
  match x with
  | S754_finite true _ _ => "-"
  | _ => ""
  end.

(** The number of hundredths that toFixed prints for a finite [x]. *)
Definition hundredths (x : number) : Z :=
  match x with
  | S754_finite _ m e => nearest_hundredths m e
  | _ => 0
  end.

(** [x] is finite and below [10^21] in magnitude: toFixed prints it in
    fixed notation. *)
Definition fixed_range (x : number) : bool :=
  match x with
  | S754_zero _ => true
  | S754_finite _ m e => negb (at_least_1e21 m e)
  | _ => false
  end.

(** [x.toFixed(2)] *)
Definition toFixed2 (x : number) : string :=
  match x with
  | S754_nan => "NaN"
  | S754_infinity s => if s then "-Infinity" else "Infinity"
  | S754_zero _ => "0.00"
  | S754_finite s m e =>
      (if s then "-" else "") +:+
      (if at_least_1e21 m e then exponential m e
       else fixed2 (nearest_hundredths m e))
  end.

End Num.

(** ** Data of the session

    Values decoded from JSON are taken well typed: a latitude or a longitude
    is a number, a directions feature has a geometry and a summary, a
    geocoding result has [lat], [lon] and [display_name].  A character of a
    [string] stands for one UTF-16 code unit. *)

#[global] Instance number_eq_dec : EqDecision Num.number.
Proof. solve_decision. Defined.

(** [{ lat, lng }] *)
Module LatLng.
Record t := mk { lat : Num.number; lng : Num.number }.
#[global] Instance eq_dec : EqDecision t.
Proof. solve_decision. Defined.
End LatLng.

(** One element of [state.routes]. *)
Module Route.
Record t := mk
  { coordinates : list LatLng.t;
    distance : string;
    duration : string }.
#[global] Instance eq_dec : EqDecision t.
Proof. solve_decision. Defined.
End Route.

(** One element of [data.features] in the reply of the directions service:
    [geometry.coordinates] holds [[lng, lat]] pairs, [properties.summary]
    the distance in meters and the duration in seconds. *)
Module Feature.
Record t := mk
  { geometry_coordinates : list (Num.number * Num.number);
    summary_distance : Num.number;
    summary_duration : Num.number }.
End Feature.

(** One element of the reply of the forward geocoding service. *)
Module SearchResult.
Record t := mk
  { lat : Num.number;
    lon : Num.number;
    display_name : string }.
#[global] Instance eq_dec : EqDecision t.
Proof. solve_decision. Defined.
End SearchResult.

(** The values of the travel mode [<select>]. *)
Inductive TravelMode := driving_car | cycling_regular | foot_walking.

#[global] Instance TravelMode_eq_dec : EqDecision TravelMode.
Proof. solve_decision. Defined.

Definition mode_value (m : TravelMode) : string :=
  match m with
  | driving_car => "driving-car"
  | cycling_regular => "cycling-regular"
  | foot_walking => "foot-walking"
  end.

(** The session state: the object held by [useState] in [useRoutePlanner],
    and the thirteen [useState] cells of the flat component. *)
Record State := mkState
  { origin : option LatLng.t;
    destination : option LatLng.t;
    originName : string;
    destinationName : string;
    routes : list Route.t;
    selectedRouteIndex : nat;
    distance : string;
    duration : string;
    searchTerm : string;
    searchResults : list SearchResult.t;
    mode : TravelMode;
    isLoadingRoute : bool;
    routeError : string }.

#[global] Instance State_eq_dec : EqDecision State.
Proof. solve_decision. Defined.

(** The argument of [useState]. *)
Definition initial_state : State :=
  {| origin := None;
     destination := None;
     originName := "";
     destinationName := "";
     routes := [];
     selectedRouteIndex := 0;
     distance := "";
     duration := "";
     searchTerm := "";
     searchResults := [];
     mode := driving_car;
     isLoadingRoute := false;
     routeError := "" |}.

(** *** Writing one field *)

Definition set_origin (v : option LatLng.t) (s : State) : State :=
  mkState v (destination s) (originName s) (destinationName s) (routes s)
    (selectedRouteIndex s) (distance s) (duration s) (searchTerm s)
    (searchResults s) (mode s) (isLoadingRoute s) (routeError s).

Definition set_destination (v : option LatLng.t) (s : State) : State :=
  mkState (origin s) v (originName s) (destinationName s) (routes s)
    (selectedRouteIndex s) (distance s) (duration s) (searchTerm s)
    (searchResults s) (mode s) (isLoadingRoute s) (routeError s).

Definition set_originName (v : string) (s : State) : State :=
  mkState (origin s) (destination s) v (destinationName s) (routes s)
    (selectedRouteIndex s) (distance s) (duration s) (searchTerm s)
    (searchResults s) (mode s) (isLoadingRoute s) (routeError s).

Definition set_destinationName (v : string) (s : State) : State :=
  mkState (origin s) (destination s) (originName s) v (routes s)
    (selectedRouteIndex s) (distance s) (duration s) (searchTerm s)
    (searchResults s) (mode s) (isLoadingRoute s) (routeError s).

Definition set_routes (v : list Route.t) (s : State) : State :=
  mkState (origin s) (destination s) (originName s) (destinationName s) v
    (selectedRouteIndex s) (distance s) (duration s) (searchTerm s)
    (searchResults s) (mode s) (isLoadingRoute s) (routeError s).

Definition set_selectedRouteIndex (v : nat) (s : State) : State :=
  mkState (origin s) (destination s) (originName s) (destinationName s)
    (routes s) v (distance s) (duration s) (searchTerm s)
    (searchResults s) (mode s) (isLoadingRoute s) (routeError s).

Definition set_distance (v : string) (s : State) : State :=
  mkState (origin s) (destination s) (originName s) (destinationName s)
    (routes s) (selectedRouteIndex s) v (duration s) (searchTerm s)
    (searchResults s) (mode s) (isLoadingRoute s) (routeError s).

Definition set_duration (v : string) (s : State) : State :=
  mkState (origin s) (destination s) (originName s) (destinationName s)
    (routes s) (selectedRouteIndex s) (distance s) v (searchTerm s)
    (searchResults s) (mode s) (isLoadingRoute s) (routeError s).

Definition set_searchTerm (v : string) (s : State) : State :=
  mkState (origin s) (destination s) (originName s) (destinationName s)
    (routes s) (selectedRouteIndex s) (distance s) (duration s) v
    (searchResults s) (mode s) (isLoadingRoute s) (routeError s).

Definition set_searchResults (v : list SearchResult.t) (s : State) : State :=
  mkState (origin s) (destination s) (originName s) (destinationName s)
    (routes s) (selectedRouteIndex s) (distance s) (duration s)
    (searchTerm s) v (mode s) (isLoadingRoute s) (routeError s).

Definition set_mode (v : TravelMode) (s : State) : State :=
  mkState (origin s) (destination s) (originName s) (destinationName s)
    (routes s) (selectedRouteIndex s) (distance s) (duration s)
    (searchTerm s) (searchResults s) v (isLoadingRoute s) (routeError s).

Definition set_isLoadingRoute (v : bool) (s : State) : State :=
  mkState (origin s) (destination s) (originName s) (destinationName s)
    (routes s) (selectedRouteIndex s) (distance s) (duration s)
    (searchTerm s) (searchResults s) (mode s) v (routeError s).

Definition set_routeError (v : string) (s : State) : State :=
  mkState (origin s) (destination s) (originName s) (destinationName s)
    (routes s) (selectedRouteIndex s) (distance s) (duration s)
    (searchTerm s) (searchResults s) (mode s) (isLoadingRoute s) v.

(** ** The environment of the component

    A handler runs to its first [await] and leaves the rest of its body
    waiting for the network.  [Pending] is such a suspended body, named by
    the request it waits for; [Reply] is what the promise settles with. *)

(** The setter handed to [fetchLocationName]. *)
Inductive NameSlot := OriginSlot | DestinationSlot.

Inductive Pending :=
  (** [axios.post] of [fetchRoute], issued with this mode, origin and
      destination *)
  | RouteRequest (m : TravelMode) (o d : LatLng.t)
  (** [axios.get] of [fetchLocationName]; [from_search] when awaited by
      [selectLocation], which clears the search afterwards *)
  | NameRequest (latlng : LatLng.t) (slot : NameSlot) (from_search : bool)
  (** [axios.get] of [handleSearch] *)
  | SearchRequest (q : string).

Inductive Effect :=
  | Send (request : Pending)
  | ConsoleError (label detail : string)
  | Alert (message : string)
  | Uncaught (detail : string).

Inductive Reply (A : Type) :=
  | Rejected (message : string)
  | Resolved (data : A).
Arguments Rejected {A} message.
Arguments Resolved {A} data.

(** [data.features] may be missing, and so may [data.display_name]. *)
Definition RouteData : Type := option (list Feature.t).
Definition NameData : Type := option string.
Definition SearchData : Type := list SearchResult.t.

(** What [navigator.geolocation] answers. *)
Inductive Geolocation :=
  | Unsupported
  | Position (location : LatLng.t)
  | PositionError (message : string).

(** The requests among the effects of a handler. *)
Fixpoint sends (effects : list Effect) : list Pending :=
  match effects with
  | [] => []
  | Send r :: rest => r :: sends rest
  | _ :: rest => sends rest
  end.

(** [fetchLocationName], after the [await]: the name handed to the setter,
    and what is logged. *)
Definition fetchLocationName_settle (reply : Reply NameData)
  : string * list Effect :=
  match reply with
  | Resolved data =>
      (match data with
       | Some (String c rest) => String c rest
       | Some EmptyString | None => "Unknown Location"
       end, [])
  | Rejected message =>
      ("Unknown Location",
       [ConsoleError "Error fetching location name:" message])
  end.

(** [!data.features?.length], and the flat component's
    [!features || features.length === 0]. *)
Definition no_features (features : RouteData) : bool :=
  match features with
  | Some (_ :: _) => false
  | Some [] | None => true
  end.

(** ** The hook-based component, [src/Components/MapComponent.js] *)

Module Hook.

(** One [key: value] entry of the object passed to [updateState]. *)
Inductive Update :=
  | Origin (v : option LatLng.t)
  | Destination (v : option LatLng.t)
  | OriginName (v : string)
  | DestinationName (v : string)
  | Routes (v : list Route.t)
  | SelectedRouteIndex (v : nat)
  | Distance (v : string)
  | Duration (v : string)
  | SearchTerm (v : string)
  | SearchResults (v : list SearchResult.t)
  | Mode (v : TravelMode)
  | IsLoadingRoute (v : bool)
  | RouteError (v : string).

Definition assign (prev : State) (u : Update) : State :=
  match u with
  | Origin v => set_origin v prev
  | Destination v => set_destination v prev
  | OriginName v => set_originName v prev
  | DestinationName v => set_destinationName v prev
  | Routes v => set_routes v prev
  | SelectedRouteIndex v => set_selectedRouteIndex v prev
  | Distance v => set_distance v prev
  | Duration v => set_duration v prev
  | SearchTerm v => set_searchTerm v prev
  | SearchResults v => set_searchResults v prev
  | Mode v => set_mode v prev
  | IsLoadingRoute v => set_isLoadingRoute v prev
  | RouteError v => set_routeError v prev
  end.

(** [setState((prev) => ({ ...prev, ...updates }))] *)
Definition updateState (updates : list Update) (prev : State) : State :=
  fold_left assign updates prev.

(** The callback of [data.features.map]. *)
Definition toRoute (feature : Feature.t) : Route.t :=
  {| Route.coordinates :=
       map (fun '(lng, lat) => LatLng.mk lat lng)
           (Feature.geometry_coordinates feature);
     Route.distance :=
       Num.toFixed2
         (Num.div (Feature.summary_distance feature) (Num.of_Z 1000));
     Route.duration :=
       Num.toFixed2
         (Num.div (Feature.summary_duration feature) (Num.of_Z 60)) |}.

(** The [try] block of [fetchRoute] from the settled [await] on: the
    message of the error thrown, or the object given to [updateState]. *)
Definition fetchRoute_try (reply : Reply RouteData)
  : string + list Update :=
  match reply with
  | Rejected message => inl message
  | Resolved features =>
      if no_features features then inl "No routes found."
      else
        let routes := map toRoute (default [] features) in
        match routes !! 0%nat with
        | Some r0 =>
            inr [Routes routes;
                 SelectedRouteIndex 0;
                 Distance (Route.distance r0 +:+ " km");
                 Duration (Route.duration r0 +:+ " min")]
        | None => inl "Cannot read properties of undefined"
        end
  end.

(** [fetchRoute] after the [await]: [try], [catch] and [finally]. *)
Definition fetchRoute_settle (reply : Reply RouteData) (prev : State)
  : State * list Effect :=
  let '(s, log) :=
    match fetchRoute_try reply with
    | inr updates => (updateState updates prev, [])
    | inl message =>
        (updateState
           [RouteError ("Failed to fetch route: " +:+ message)] prev,
         [ConsoleError "Error fetching route:" message])
    end in
  (updateState [IsLoadingRoute false] s, log).

Section WithConfig.

(** [API_CONFIG.orsKey] *)
Variable orsKey : string.

(** [fetchRoute] up to the [await]. *)
Definition fetchRoute (state : State) : State * list Effect :=
  match origin state, destination state with
  | Some o, Some d =>
      match orsKey with
      | EmptyString =>
          (updateState [RouteError "API key is missing."] state, [])
      | _ =>
          (updateState
             [IsLoadingRoute true; RouteError ""; Routes [];
              Distance ""; Duration ""] state,
           [Send (RouteRequest (mode state) o d)])
      end
  | _, _ =>
      (updateState
         [RouteError "Please set both origin and destination."] state,
       [])
  end.

End WithConfig.

(** The [click] handler of [LocationMarker]. *)
Definition LocationMarker_click (latlng : LatLng.t) (state : State)
  : State * list Effect :=
  match origin state with
  | None =>
      (updateState [Origin (Some latlng)] state,
       [Send (NameRequest latlng OriginSlot false)])
  | Some _ =>
      (updateState [Destination (Some latlng)] state,
       [Send (NameRequest latlng DestinationSlot false)])
  end.

(** The name setters handed to [fetchLocationName]. *)
Definition setName (slot : NameSlot) (name : string) (prev : State)
  : State :=
  match slot with
  | OriginSlot => updateState [OriginName name] prev
  | DestinationSlot => updateState [DestinationName name] prev
  end.

(** [handleSearch] up to the [await]. *)
Definition handleSearch (term : string) (state : State)
  : State * list Effect :=
  let s := updateState [SearchTerm term] state in
  if (String.length term <? 3)%nat
  then (updateState [SearchResults []] s, [])
  else (s, [Send (SearchRequest term)]).

(** [handleSearch] after the [await]. *)
Definition handleSearch_settle (reply : Reply SearchData) (prev : State)
  : State * list Effect :=
  match reply with
  | Resolved data => (updateState [SearchResults data] prev, [])
  | Rejected message =>
      (prev, [ConsoleError "Error fetching address suggestions:" message])
  end.

(** [selectLocation] up to the [await]. *)
Definition selectLocation (lat lon : Num.number) (state : State)
  : State * list Effect :=
  let location := LatLng.mk lat lon in
  match origin state with
  | None =>
      (updateState [Origin (Some location)] state,
       [Send (NameRequest location OriginSlot true)])
  | Some _ =>
      (updateState [Destination (Some location)] state,
       [Send (NameRequest location DestinationSlot true)])
  end.

(** [selectLocation] after the [await]. *)
Definition selectLocation_settle (prev : State) : State :=
  updateState [SearchResults []; SearchTerm ""] prev.

(** [setCurrentLocation], with the answer of the browser. *)
Definition setCurrentLocation (answer : Geolocation) (state : State)
  : State * list Effect :=
  match answer with
  | Unsupported =>
      (state, [Alert "Geolocation is not supported by your browser."])
  | Position location =>
      (updateState [Origin (Some location)] state,
       [Send (NameRequest location OriginSlot false)])
  | PositionError message =>
      (state,
       [ConsoleError "Error fetching current location:" message;
        Alert
          "Unable to fetch your location. Please try again or select manually."])
  end.

(** [handleRouteChange]: reading [state.routes[index].distance] throws
    when there is no such route, before [updateState] is called. *)
Definition handleRouteChange (index : nat) (state : State)
  : State * list Effect :=
  match routes state !! index with
  | Some route =>
      (updateState
         [SelectedRouteIndex index;
          Distance (Route.distance route +:+ " km");
          Duration (Route.duration route +:+ " min")] state,
       [])
  | None => (state, [Uncaught "Cannot read properties of undefined"])
  end.

Definition resetRoute (state : State) : State :=
  updateState
    [Origin None; Destination None; OriginName ""; DestinationName "";
     Routes []; SelectedRouteIndex 0; Distance ""; Duration "";
     RouteError ""; SearchTerm ""; SearchResults []] state.

(** [onChange] of the travel mode [<select>]. *)
Definition setMode (value : TravelMode) (state : State) : State :=
  updateState [Mode value] state.

End Hook.

(** ** The flat component: one [useState] cell per field *)

Module Flat.

Definition setOrigin := set_origin.
Definition setDestination := set_destination.
Definition setOriginName := set_originName.
Definition setDestinationName := set_destinationName.
Definition setRoutes := set_routes.
Definition setSelectedRouteIndex := set_selectedRouteIndex.
Definition setDistance := set_distance.
Definition setDuration := set_duration.
Definition setSearchTerm := set_searchTerm.
Definition setSearchResults := set_searchResults.
Definition setMode := set_mode.
Definition setIsLoadingRoute := set_isLoadingRoute.
Definition setRouteError := set_routeError.

(** Statements in source order: [s |> f] runs the write [f] after those
    that gave [s]. *)
Notation "s |> f" := (f s) (at level 61, left associativity, only parsing).

(** The callback of [response.data.features.map]. *)
Definition toRoute (feature : Feature.t) : Route.t :=
  {| Route.coordinates :=
       map (fun '(lng, lat) => LatLng.mk lat lng)
           (Feature.geometry_coordinates feature);
     Route.distance :=
       Num.toFixed2
         (Num.div (Feature.summary_distance feature) (Num.of_Z 1000));
     Route.duration :=
       Num.toFixed2
         (Num.div (Feature.summary_duration feature) (Num.of_Z 60)) |}.

(** The [try] block of [fetchRoute] from the settled [await] on: the
    message of the error thrown, or the state after the four writes. *)
Definition fetchRoute_try (reply : Reply RouteData) (prev : State)
  : string + State :=
  match reply with
  | Rejected message => inl message
  | Resolved features =>
      if no_features features
      then inl "No routes found in the API response."
      else
        let fetchedRoutes := map toRoute (default [] features) in
        match fetchedRoutes !! 0%nat with
        | Some r0 =>
            inr (prev |> setRoutes fetchedRoutes
                      |> setSelectedRouteIndex 0
                      |> setDistance (Route.distance r0 +:+ " km")
                      |> setDuration (Route.duration r0 +:+ " min"))
        | None => inl "Cannot read properties of undefined"
        end
  end.

(** [fetchRoute] after the [await]: [try], [catch] and [finally]. *)
Definition fetchRoute_settle (reply : Reply RouteData) (prev : State)
  : State * list Effect :=
  let '(s, log) :=
    match fetchRoute_try reply prev with
    | inr s => (s, [])
    | inl message =>
        (prev |> setRouteError ("Failed to fetch route: " +:+ message),
         [ConsoleError "Error fetching route:" message])
    end in
  (s |> setIsLoadingRoute false, log).

Section WithConfig.

(** [ORS_API_KEY] *)
Variable ORS_API_KEY : string.

(** [fetchRoute] up to the [await]. *)
Definition fetchRoute (state : State) : State * list Effect :=
  match origin state, destination state with
  | Some o, Some d =>
      match ORS_API_KEY with
      | EmptyString =>
          (state |> setRouteError
             "API key is missing. Please configure the OpenRouteService API key.",
           [])
      | _ =>
          (state |> setIsLoadingRoute true
                 |> setRouteError ""
                 |> setRoutes []
                 |> setDistance ""
                 |> setDuration "",
           [Send (RouteRequest (mode state) o d)])
      end
  | _, _ =>
      (state |> setRouteError "Please set both origin and destination.",
       [])
  end.

End WithConfig.

(** The [click] handler of [LocationMarker]. *)
Definition LocationMarker_click (latlng : LatLng.t) (state : State)
  : State * list Effect :=
  match origin state with
  | None =>
      (state |> setOrigin (Some latlng),
       [Send (NameRequest latlng OriginSlot false)])
  | Some _ =>
      (state |> setDestination (Some latlng),
       [Send (NameRequest latlng DestinationSlot false)])
  end.

(** The name setters handed to [fetchLocationName]. *)
Definition setName (slot : NameSlot) (name : string) (prev : State)
  : State :=
  match slot with
  | OriginSlot => prev |> setOriginName name
  | DestinationSlot => prev |> setDestinationName name
  end.

(** [handleSearch] up to the [await]. *)
Definition handleSearch (value : string) (state : State)
  : State * list Effect :=
  let s := state |> setSearchTerm value in
  if (String.length value <? 3)%nat
  then (s |> setSearchResults [], [])
  else (s, [Send (SearchRequest value)]).

(** [handleSearch] after the [await]. *)
Definition handleSearch_settle (reply : Reply SearchData) (prev : State)
  : State * list Effect :=
  match reply with
  | Resolved data => (prev |> setSearchResults data, [])
  | Rejected message =>
      (prev, [ConsoleError "Error fetching address suggestions:" message])
  end.

(** [selectLocation] up to the [await]. *)
Definition selectLocation (lat lon : Num.number) (state : State)
  : State * list Effect :=
  match origin state with
  | None =>
      (state |> setOrigin (Some (LatLng.mk lat lon)),
       [Send (NameRequest (LatLng.mk lat lon) OriginSlot true)])
  | Some _ =>
      (state |> setDestination (Some (LatLng.mk lat lon)),
       [Send (NameRequest (LatLng.mk lat lon) DestinationSlot true)])
  end.

(** [selectLocation] after the [await]. *)
Definition selectLocation_settle (prev : State) : State :=
  prev |> setSearchResults [] |> setSearchTerm "".

(** [setCurrentLocationAsOrigin], with the answer of the browser. *)
Definition setCurrentLocationAsOrigin (answer : Geolocation)
  (state : State) : State * list Effect :=
  match answer with
  | Position location =>
      (state |> setOrigin (Some location),
       [Send (NameRequest location OriginSlot false)])
  | PositionError message =>
      (state,
       [ConsoleError "Error fetching current location:" message;
        Alert
          "Unable to fetch your location. Please try again or select manually."])
  | Unsupported =>
      (state, [Alert "Geolocation is not supported by your browser."])
  end.

(** [handleRouteChange]: [setSelectedRouteIndex] has run when reading
    [routes[index].distance] throws. *)
Definition handleRouteChange (index : nat) (state : State)
  : State * list Effect :=
  let s := state |> setSelectedRouteIndex index in
  match routes state !! index with
  | Some route =>
      (s |> setDistance (Route.distance route +:+ " km")
         |> setDuration (Route.duration route +:+ " min"),
       [])
  | None => (s, [Uncaught "Cannot read properties of undefined"])
  end.

Definition resetRoute (state : State) : State :=
  state |> setOrigin None
        |> setDestination None
        |> setOriginName ""
        |> setDestinationName ""
        |> setRoutes []
        |> setSelectedRouteIndex 0
        |> setDistance ""
        |> setDuration ""
        |> setRouteError ""
        |> setSearchTerm ""
        |> setSearchResults [].

End Flat.

(** ** The running component

    What the markup and the React runtime add to the handlers: which
    handler an event reaches and when its control is there to be used, the
    [useEffect] on [mode], [origin] and [destination], and the resumption of
    a suspended handler when its request settles.  One event is handled at
    a time, on the state of the latest render. *)

Record Component := mkComponent
  { c_fetchRoute : State -> State * list Effect;
    c_fetchRoute_settle : Reply RouteData -> State -> State * list Effect;
    c_LocationMarker_click : LatLng.t -> State -> State * list Effect;
    c_setName : NameSlot -> string -> State -> State;
    c_handleSearch : string -> State -> State * list Effect;
    c_handleSearch_settle : Reply SearchData -> State -> State * list Effect;
    c_selectLocation : Num.number -> Num.number -> State -> State * list Effect;
    c_selectLocation_settle : State -> State;
    c_setCurrentLocation : Geolocation -> State -> State * list Effect;
    c_handleRouteChange : nat -> State -> State * list Effect;
    c_resetRoute : State -> State;
    c_setMode : TravelMode -> State -> State }.

Definition hook (orsKey : string) : Component :=
  {| c_fetchRoute := Hook.fetchRoute orsKey;
     c_fetchRoute_settle := Hook.fetchRoute_settle;
     c_LocationMarker_click := Hook.LocationMarker_click;
     c_setName := Hook.setName;
     c_handleSearch := Hook.handleSearch;
     c_handleSearch_settle := Hook.handleSearch_settle;
     c_selectLocation := Hook.selectLocation;
     c_selectLocation_settle := Hook.selectLocation_settle;
     c_setCurrentLocation := Hook.setCurrentLocation;
     c_handleRouteChange := Hook.handleRouteChange;
     c_resetRoute := Hook.resetRoute;
     c_setMode := Hook.setMode |}.

Definition flat (ORS_API_KEY : string) : Component :=
  {| c_fetchRoute := Flat.fetchRoute ORS_API_KEY;
     c_fetchRoute_settle := Flat.fetchRoute_settle;
     c_LocationMarker_click := Flat.LocationMarker_click;
     c_setName := Flat.setName;
     c_handleSearch := Flat.handleSearch;
     c_handleSearch_settle := Flat.handleSearch_settle;
     c_selectLocation := Flat.selectLocation;
     c_selectLocation_settle := Flat.selectLocation_settle;
     c_setCurrentLocation := Flat.setCurrentLocationAsOrigin;
     c_handleRouteChange := Flat.handleRouteChange;
     c_resetRoute := Flat.resetRoute;
     c_setMode := Flat.setMode |}.

(** The session and the requests that have not settled yet. *)
Record Config := mkConfig
  { session : State;
    pending : list Pending }.

Definition initial_config : Config :=
  {| session := initial_state; pending := [] |}.

Inductive Event :=
  (** a click on the map *)
  | MapClick (latlng : LatLng.t)
  (** typing in the search input *)
  | SearchChange (value : string)
  (** a click on the [index]-th rendered search result *)
  | ResultClick (index : nat)
  (** the "Use My Location" button, with what the browser answers *)
  | LocateClick (answer : Geolocation)
  (** the travel mode [<select>] *)
  | ModeSelect (value : TravelMode)
  (** the "Get Route" button *)
  | GetRouteClick
  (** the button rendered for [routes[index]] *)
  | RouteButtonClick (index : nat)
  (** the "Reset" button *)
  | ResetClick
  (** the [k]-th pending request settles *)
  | RouteReply (k : nat) (reply : Reply RouteData)
  | NameReply (k : nat) (reply : Reply NameData)
  | SearchReply (k : nat) (reply : Reply SearchData).

(** Does the event store a newly made object in [origin] or
    [destination]? *)
Definition stores_location (e : Event) : bool :=
  match e with
  | MapClick _ | ResultClick _ | LocateClick (Position _) => true
  | _ => false
  end.

(** Has one of the dependencies [mode], [origin], [destination] of the
    effect changed over a render?  A stored location is a new object; apart
    from that a field keeps its object or becomes [null]. *)
Definition deps_changed (stored : bool) (before after : State) : bool :=
  stored
  || bool_decide (mode before ≠ mode after)
  || bool_decide (origin before ≠ origin after)
  || bool_decide (destination before ≠ destination after).

Section Run.

Variable C : Component.

(** [fetchLocationName] resumed, then the rest of [selectLocation]. *)
Definition name_settle (slot : NameSlot) (from_search : bool)
  (reply : Reply NameData) (prev : State) : State * list Effect :=
  let '(name, log) := fetchLocationName_settle reply in
  let s := c_setName C slot name prev in
  (if from_search then c_selectLocation_settle C s else s, log).

(** The handler an event reaches, run on the current state, and the
    requests still pending; [None] when the control is disabled or not
    rendered, or when no such request is pending. *)
Definition handle (c : Config) (e : Event)
  : option (State * list Effect * list Pending) :=
  let s := session c in
  match e with
  | MapClick latlng => Some (c_LocationMarker_click C latlng s, pending c)
  | SearchChange value => Some (c_handleSearch C value s, pending c)
  | ResultClick index =>
      match searchResults s !! index with
      | Some result =>
          Some (c_selectLocation C (SearchResult.lat result)
                  (SearchResult.lon result) s, pending c)
      | None => None
      end
  | LocateClick answer => Some (c_setCurrentLocation C answer s, pending c)
  | ModeSelect value => Some (c_setMode C value s, [], pending c)
  | GetRouteClick =>
      match origin s, destination s, isLoadingRoute s with
      | Some _, Some _, false => Some (c_fetchRoute C s, pending c)
      | _, _, _ => None
      end
  | RouteButtonClick index =>
      if (index <? length (routes s))%nat
      then Some (c_handleRouteChange C index s, pending c)
      else None
  | ResetClick => Some (c_resetRoute C s, [], pending c)
  | RouteReply k reply =>
      match pending c !! k with
      | Some (RouteRequest _ _ _) =>
          Some (c_fetchRoute_settle C reply s, delete k (pending c))
      | _ => None
      end
  | NameReply k reply =>
      match pending c !! k with
      | Some (NameRequest _ slot from_search) =>
          Some (name_settle slot from_search reply s, delete k (pending c))
      | _ => None
      end
  | SearchReply k reply =>
      match pending c !! k with
      | Some (SearchRequest _) =>
          Some (c_handleSearch_settle C reply s, delete k (pending c))
      | _ => None
      end
  end.

(** The [useEffect]: after a render in which a dependency changed,
    [fetchRoute] is called if both points are set and no route is
    loading. *)
Definition useEffect (changed : bool) (s : State) : State * list Effect :=
  match origin s, destination s, isLoadingRoute s with
  | Some _, Some _, false => if changed then c_fetchRoute C s else (s, [])
  | _, _, _ => (s, [])
  end.

(** One event: the handler, the render, the effect. *)
Definition step (c : Config) (e : Event) : Config * list Effect :=
  match handle c e with
  | None => (c, [])
  | Some (s1, effects1, waiting) =>
      let changed := deps_changed (stores_location e) (session c) s1 in
      let '(s2, effects2) := useEffect changed s1 in
      ({| session := s2;
          pending := waiting ++ sends (effects1 ++ effects2) |},
       effects1 ++ effects2)
  end.

Fixpoint run (c : Config) (events : list Event) : Config * list Effect :=
  match events with
  | [] => (c, [])
  | e :: rest =>
      let '(c1, effects1) := step c e in
      let '(c2, effects2) := run c1 rest in
      (c2, effects1 ++ effects2)
  end.

Definition after (events : list Event) : Config :=
  fst (run initial_config events).

End Run.

(** ** Notions used by the properties *)

(** The route set of a session: the routes, the selected index and the
    displayed distance and duration. *)
Definition route_set (s : State)
  : list Route.t * nat * string * string :=
  (routes s, selectedRouteIndex s, distance s, duration s).

(** The [k]-th pending request is a route request whose mode, origin or
    destination is no longer that of the session. *)
Definition stale (c : Config) (k : nat) : Prop :=
  ∃ m o d,
    pending c !! k = Some (RouteRequest m o d)
    ∧ (mode (session c), origin (session c), destination (session c))
      ≠ (m, Some o, Some d).

Definition is_route_request (p : Pending) : bool :=
  match p with RouteRequest _ _ _ => true | _ => false end.

(** The number of route requests that have not settled. *)
Definition route_requests (waiting : list Pending) : nat :=
  length (List.filter is_route_request waiting).

(** The selected index is a position of the route list when there is
    one. *)
Definition selection_valid (s : State) : Prop :=
  routes s ≠ [] → (selectedRouteIndex s < length (routes s))%nat.

(** What holds of every configuration the component reaches: a route
    request is pending exactly while the loading flag is set, and only
    one; the route list is empty meanwhile; the selection is valid. *)
Definition consistent (c : Config) : Prop :=
  route_requests (pending c)
    = (if isLoadingRoute (session c) then 1 else 0)%nat
  ∧ (isLoadingRoute (session c) = true → routes (session c) = [])
  ∧ selection_valid (session c).

(** All fields but [routeError] agree, and the two error messages are the
    same or one of the listed pairs. *)
Definition agree_upto (wordings : list (string * string)) (s1 s2 : State)
  : Prop :=
  set_routeError "" s1 = set_routeError "" s2
  ∧ (routeError s1 = routeError s2
     ∨ (routeError s1, routeError s2) ∈ wordings).

(** The messages on which the two components differ. *)
Definition missing_key_wording : string * string :=
  ("API key is missing.",
   "API key is missing. Please configure the OpenRouteService API key.").

Definition no_routes_wording : string * string :=
  ("Failed to fetch route: No routes found.",
   "Failed to fetch route: No routes found in the API response.").

(** Agreement of two configurations: the same pending requests, and
    sessions that agree up to the two wordings. *)
Definition similar (c1 c2 : Config) : Prop :=
  pending c1 = pending c2
  ∧ agree_upto [missing_key_wording; no_routes_wording]
      (session c1) (session c2).

(** *** Sample data *)

Definition london : LatLng.t := LatLng.mk (Num.of_Z 51) (Num.of_Z 0).
Definition paris : LatLng.t := LatLng.mk (Num.of_Z 48) (Num.of_Z 2).

(** A feature of 12345 meters and 987 seconds. *)
Definition sample_feature : Feature.t :=
  {| Feature.geometry_coordinates :=
       [(Num.of_Z 0, Num.of_Z 51); (Num.of_Z 2, Num.of_Z 48)];
     Feature.summary_distance := Num.of_Z 12345;
     Feature.summary_duration := Num.of_Z 987 |}.

(** A feature of 4800 meters and 650 seconds. *)
Definition shorter_feature : Feature.t :=
  {| Feature.geometry_coordinates :=
       [(Num.of_Z 0, Num.of_Z 51); (Num.of_Z 2, Num.of_Z 48)];
     Feature.summary_distance := Num.of_Z 4800;
     Feature.summary_duration := Num.of_Z 650 |}.

(** A feature of [10^24] meters and [6 * 10^22] seconds: both quotients
    are [10^21]. *)
Definition huge_feature : Feature.t :=
  {| Feature.geometry_coordinates := [];
     Feature.summary_distance := Num.of_Z (10 ^ 24);
     Feature.summary_duration := Num.of_Z (6 * 10 ^ 22) |}.

(** A feature whose duration is not a number. *)
Definition timeless_feature : Feature.t :=
  {| Feature.geometry_coordinates := [];
     Feature.summary_distance := Num.of_Z 12345;
     Feature.summary_duration := S754_nan |}.

Definition sample_result : SearchResult.t :=
  {| SearchResult.lat := Num.of_Z 51;
     SearchResult.lon := Num.of_Z 0;
     SearchResult.display_name := "London" |}.

(** Two clicks on the map, a reply with two candidates, a click on the
    second route button and one on a button that is not there. *)
Definition sample_events : list Event :=
  [MapClick london; MapClick paris;
   RouteReply 2 (Resolved (Some [sample_feature; shorter_feature]));
   RouteButtonClick 1; RouteButtonClick 7].

(** ** More of the component: what is sent and what is drawn *)

(** The [coordinates] of the body posted by [fetchRoute]:
    [[origin.lng, origin.lat], [destination.lng, destination.lat]]. *)
Definition request_coordinates (o d : LatLng.t)
  : list (Num.number * Num.number) :=
  [(LatLng.lng o, LatLng.lat o); (LatLng.lng d, LatLng.lat d)].

(** [ROUTE_COLORS] *)
Definition ROUTE_COLORS : list string := ["#007bff"; "#28a745"; "#dc3545"].

(** The props of one [<Polyline>]. *)
Module Polyline.
Record t := mk
  { positions : list LatLng.t;
    color : option string;
    weight : Z;
    opacity : Q }.
End Polyline.

(** The callback of [state.routes.map] that draws the routes: the props
    of the [<Polyline>] of [route] at [index]. *)
Definition polyline (state : State) (index : nat) (route : Route.t)
  : Polyline.t :=
  {| Polyline.positions := Route.coordinates route;
     Polyline.color := ROUTE_COLORS !! index;
     Polyline.weight :=
       if (selectedRouteIndex state =? index)%nat then 5 else 3;
     Polyline.opacity :=
       if (selectedRouteIndex state =? index)%nat then 1%Q else (1 # 2)%Q |}.

(** [state.routes.map((route, index) => <Polyline ... />)] *)
Definition polylines (state : State) : list Polyline.t :=
  imap (polyline state) (routes state).

(** The polyline drawn thick and opaque. *)
Definition highlighted (p : Polyline.t) : bool :=
  (Polyline.weight p =? 5)%Z && Qeq_bool (Polyline.opacity p) 1.

(** The [location] handed to [MapCenterControl]:
    [state.origin || state.destination]. *)
Definition center_location (state : State) : option LatLng.t :=
  match origin state with
  | Some o => Some o
  | None => destination state
  end.

(** The session as [fetchRoute] leaves it when it posts its request. *)
Definition loading_state (s : State) : State :=
  set_duration ""
    (set_distance ""
       (set_routes [] (set_routeError "" (set_isLoadingRoute true s)))).

(** [text] is a numeral with two digits after the point whose digits, read
    without the point, make the integer [n]: it denotes [n / 100]. *)
Definition two_decimals (text : string) (n : Z) : Prop :=
  ∃ a b d,
    text = a +:+ "." +:+ b
    ∧ String.length b = 2%nat
    ∧ NilEmpty.uint_of_string (a +:+ b) = Some d
    ∧ Z.of_uint d = n.

(** The decimal digit [k] put in front of the digits [u]. *)
Definition digit_of (k : Z) (u : Decimal.uint) : Decimal.uint :=
  match k with
  | 0 => Decimal.D0 u | 1 => Decimal.D1 u | 2 => Decimal.D2 u
  | 3 => Decimal.D3 u | 4 => Decimal.D4 u | 5 => Decimal.D5 u
  | 6 => Decimal.D6 u | 7 => Decimal.D7 u | 8 => Decimal.D8 u
  | _ => Decimal.D9 u
  end.

(** The character of the decimal digit [k]: ["0"] has code 48. *)
Definition digit_char (k : Z) : ascii := ascii_of_nat (48 + Z.to_nat k).

(** The numeral of [n] hundredths: the decimal numeral of the integer
    [n / 100] (["0"] when it is zero, no leading zero otherwise), a point,
    the tens digit and the units digit of [n]. *)
Definition hundredths_numeral (n : Z) : string :=
  NilZero.string_of_uint (N.to_uint (Z.to_N (n / 100)))
  +:+ "." +:+ String (digit_char (n / 10 mod 10))
                (String (digit_char (n mod 10)) "").

(** [text] is the number [x] rounded to two decimal places: there is an
    integer number [n] of hundredths with [n / 100] within half a hundredth
    of the magnitude of [x], the larger one when two are as close, and
    [text] is the sign of [x] followed by the numeral of [n] hundredths.
    The two bounds leave one [n], so that [x] determines [text]. *)
Definition rounded_to_two_decimals (text : string) (x : Num.number) : Prop :=
  ∃ n : Z,
    0 <= n
    ∧ (- (1 # 200) < inject_Z n / 100 - Num.magnitude x)%Q
    ∧ (inject_Z n / 100 - Num.magnitude x <= 1 # 200)%Q
    ∧ text = Num.sign_prefix x +:+ hundredths_numeral n.

(** What is shown agrees with what is selected: the distance and duration
    are those of the selected route, and empty when no route is there. *)
Definition shown_matches_selection (s : State) : Prop :=
  match routes s !! selectedRouteIndex s with
  | Some route =>
      distance s = Route.distance route +:+ " km"
      ∧ duration s = Route.duration route +:+ " min"
  | None => distance s = "" ∧ duration s = ""
  end.

(** What holds besides [consistent] of every configuration that a
    component with credential [key] reaches. *)
Definition coherent (key : string) (s : State) : Prop :=
  shown_matches_selection s
  ∧ (isLoadingRoute s = true → routeError s = "")
  ∧ (routes s ≠ [] → routeError s = "")
  ∧ routeError s ≠ "Please set both origin and destination."
  ∧ (key = "" → routes s = [] ∧ isLoadingRoute s = false)
  ∧ (origin s = None → destination s = None).

(** ** Properties of the handlers *)

(** *** Number formatting *)

Lemma nearest_hundredths_close (m : positive) (e : Z) (s : bool) :
  (Qabs (inject_Z (Num.nearest_hundredths m e) / 100
         - Num.magnitude (S754_finite s m e)) <= 1 # 200)%Q.
Proof.
  apply Qabs_Qle_condition.
  destruct e as [|p|p]; unfold Num.nearest_hundredths, Num.magnitude.
  - unfold Qle, Qminus, Qplus, Qdiv, Qmult, Qinv, Qopp, inject_Z; simpl.
    split; lia.
  - unfold Qle, Qminus, Qplus, Qdiv, Qmult, Qinv, Qopp, inject_Z; simpl.
    split; lia.
  - assert (HP : (0 < 2 ^ Z.pos p)%Z) by (apply Z.pow_pos_nonneg; lia).
    assert (H2 : (2 ^ (Z.pos p + 1) = 2 * 2 ^ Z.pos p)%Z)
      by (rewrite Z.pow_add_r by lia; lia).
    rewrite H2.
    pose proof (Z.div_mod (200 * Z.pos m + 2 ^ Z.pos p) (2 * 2 ^ Z.pos p)
                  ltac:(lia)) as Hdm.
    pose proof (Z.mod_pos_bound (200 * Z.pos m + 2 ^ Z.pos p)
                  (2 * 2 ^ Z.pos p) ltac:(lia)) as Hb.
    set (n := ((200 * Z.pos m + 2 ^ Z.pos p) / (2 * 2 ^ Z.pos p))%Z) in *.
    unfold Qle, Qminus, Qplus, Qdiv, Qmult, Qinv, Qopp, inject_Z; simpl.
    rewrite !Pos2Z.inj_mul, !Pos2Z.inj_pow.
    set (P := (2 ^ Z.pos p)%Z) in *.
    split; nia.
Qed.

(** In its fixed range toFixed prints the sign and the hundredths nearest
    to the magnitude. *)
Lemma toFixed2_rounds (x : Num.number) :
  Num.fixed_range x = true →
  Num.toFixed2 x = Num.sign_prefix x +:+ Num.fixed2 (Num.hundredths x)
  ∧ (Qabs (inject_Z (Num.hundredths x) / 100 - Num.magnitude x)
     <= 1 # 200)%Q.
Proof.
  destruct x as [s| s | |s m e]; try discriminate.
  - intros _. split; [reflexivity|]. vm_compute. discriminate.
  - unfold Num.fixed_range. intros Hr. split.
    + unfold Num.toFixed2, Num.sign_prefix, Num.hundredths.
      destruct (Num.at_least_1e21 m e); [discriminate|].
      destruct s; reflexivity.
    + apply nearest_hundredths_close.
Qed.

Lemma toRoute_agree (feature : Feature.t) :
  Flat.toRoute feature = Hook.toRoute feature.
Proof. reflexivity. Qed.

(** *** Decimal numerals

    The digits of [10 * q + k] are those of [q] followed by the digit
    [k]. *)

Ltac digit_cases k :=
  destruct k as [|[[[|[]|]|[[]|[]|]|]|[[|[]|]|[|[]|]|]|]|]; try lia.

Lemma rev_snoc (u : Decimal.uint) (k : Z) :
  Decimal.rev (Decimal.app u (digit_of k Decimal.Nil))
  = digit_of k (Decimal.rev u).
Proof.
  apply DecimalFacts.to_list_inj.
  rewrite DecimalFacts.rev_spec, DecimalFacts.app_spec, List.rev_app_distr.
  destruct k as [|[[[|[]|]|[[]|[]|]|]|[[|[]|]|[|[]|]|]|]|];
    cbn; by rewrite ?DecimalFacts.rev_spec.
Qed.

Lemma of_uint_snoc (u : Decimal.uint) (k : Z) :
  0 <= k < 10 →
  Z.of_N (Pos.of_uint (Decimal.app u (digit_of k Decimal.Nil)))
  = 10 * Z.of_N (Pos.of_uint u) + k.
Proof.
  intros Hk.
  rewrite !DecimalPos.Unsigned.of_uint_alt, rev_snoc.
  digit_cases k; cbn [digit_of]; rewrite DecimalPos.Unsigned.of_lu_eqn;
    cbn [DecimalPos.Unsigned.hd DecimalPos.Unsigned.tl]; lia.
Qed.

Lemma app_cons (u v : Decimal.uint) (k : Z) :
  Decimal.app (digit_of k u) v = digit_of k (Decimal.app u v).
Proof.
  apply DecimalFacts.to_list_inj. rewrite DecimalFacts.app_spec.
  destruct k as [|[[[|[]|]|[[]|[]|]|]|[[|[]|]|[|[]|]|]|]|];
    cbn; by rewrite ?DecimalFacts.app_spec.
Qed.

Lemma string_of_uint_app (u v : Decimal.uint) :
  NilEmpty.string_of_uint (Decimal.app u v)
  = NilEmpty.string_of_uint u +:+ NilEmpty.string_of_uint v.
Proof.
  induction u as [|u IH|u IH|u IH|u IH|u IH|u IH|u IH|u IH|u IH|u IH].
  - reflexivity.
  - rewrite (app_cons u v 0 : Decimal.app (Decimal.D0 u) v = Decimal.D0 (Decimal.app u v)).
    cbn. by rewrite IH.
  - rewrite (app_cons u v 1 : Decimal.app (Decimal.D1 u) v = Decimal.D1 (Decimal.app u v)).
    cbn. by rewrite IH.
  - rewrite (app_cons u v 2 : Decimal.app (Decimal.D2 u) v = Decimal.D2 (Decimal.app u v)).
    cbn. by rewrite IH.
  - rewrite (app_cons u v 3 : Decimal.app (Decimal.D3 u) v = Decimal.D3 (Decimal.app u v)).
    cbn. by rewrite IH.
  - rewrite (app_cons u v 4 : Decimal.app (Decimal.D4 u) v = Decimal.D4 (Decimal.app u v)).
    cbn. by rewrite IH.
  - rewrite (app_cons u v 5 : Decimal.app (Decimal.D5 u) v = Decimal.D5 (Decimal.app u v)).
    cbn. by rewrite IH.
  - rewrite (app_cons u v 6 : Decimal.app (Decimal.D6 u) v = Decimal.D6 (Decimal.app u v)).
    cbn. by rewrite IH.
  - rewrite (app_cons u v 7 : Decimal.app (Decimal.D7 u) v = Decimal.D7 (Decimal.app u v)).
    cbn. by rewrite IH.
  - rewrite (app_cons u v 8 : Decimal.app (Decimal.D8 u) v = Decimal.D8 (Decimal.app u v)).
    cbn. by rewrite IH.
  - rewrite (app_cons u v 9 : Decimal.app (Decimal.D9 u) v = Decimal.D9 (Decimal.app u v)).
    cbn. by rewrite IH.
Qed.

Lemma to_uint_head (p : positive) :
  ∃ k u, 1 <= k < 10 ∧ Pos.to_uint p = digit_of k u.
Proof.
  pose proof (DecimalPos.Unsigned.to_uint_nonzero p) as Hz.
  pose proof (DecimalPos.Unsigned.to_of (Pos.to_uint p)) as Hn.
  rewrite DecimalPos.Unsigned.of_to in Hn. cbn [N.to_uint] in Hn.
  destruct (Pos.to_uint p) as [|u|u|u|u|u|u|u|u|u|u] eqn:E.
  - by destruct (DecimalPos.Unsigned.to_uint_nonnil p).
  - exfalso. unfold Decimal.unorm in Hn. cbn [Decimal.nzhead] in Hn.
    destruct (Decimal.nzhead u) eqn:Eu; try discriminate.
    + apply Hz. rewrite ?E. congruence.
    + by apply (DecimalFacts.nzhead_nonzero u u0).
  - by exists 1, u.
  - by exists 2, u.
  - by exists 3, u.
  - by exists 4, u.
  - by exists 5, u.
  - by exists 6, u.
  - by exists 7, u.
  - by exists 8, u.
  - by exists 9, u.
Qed.

Lemma unorm_digit (k : Z) (u : Decimal.uint) :
  1 <= k < 10 → Decimal.unorm (digit_of k u) = digit_of k u.
Proof. intros Hk. by digit_cases k. Qed.

Lemma to_uint_snoc (p : positive) (k : Z) :
  0 <= k < 10 →
  N.to_uint (Z.to_N (10 * Z.pos p + k))
  = Decimal.app (Pos.to_uint p) (digit_of k Decimal.Nil).
Proof.
  intros Hk.
  pose proof (of_uint_snoc (Pos.to_uint p) k Hk) as H.
  rewrite DecimalPos.Unsigned.of_to in H.
  change (Z.of_N (N.pos p)) with (Z.pos p) in H.
  rewrite <- H, N2Z.id.
  change (N.to_uint (Pos.of_uint ?d)) with (N.to_uint (Pos.of_uint d)).
  rewrite DecimalPos.Unsigned.to_of.
  destruct (to_uint_head p) as (h & u & Hh & ->).
  rewrite app_cons. by apply unorm_digit.
Qed.

Lemma digits_snoc (q k : Z) :
  0 < q → 0 <= k < 10 →
  Num.digits (10 * q + k) = Num.digits q +:+ String (digit_char k) "".
Proof.
  intros Hq Hk. destruct q as [|p|p]; try lia.
  unfold Num.digits. rewrite to_uint_snoc by done.
  change (N.to_uint (Z.to_N (Z.pos p))) with (Pos.to_uint p).
  destruct (to_uint_head p) as (h & u & Hh & E).
  assert (Hne : ∀ w, NilZero.string_of_uint (digit_of h w)
                     = NilEmpty.string_of_uint (digit_of h w))
    by (intros w; by digit_cases h).
  rewrite E, app_cons, !Hne, <- app_cons, string_of_uint_app.
  f_equal. by digit_cases k.
Qed.

Lemma nearest_hundredths_nonneg (m : positive) (e : Z) :
  0 <= Num.nearest_hundredths m e.
Proof.
  destruct e as [|p|p]; cbn -[Z.pow Z.mul Z.div Z.add]; [lia| |].
  - assert (0 < 2 ^ Z.pos p) by (apply Z.pow_pos_nonneg; lia). nia.
  - apply Z.div_pos.
    + assert (0 < 2 ^ Z.pos p) by (apply Z.pow_pos_nonneg; lia). lia.
    + apply Z.pow_pos_nonneg; lia.
Qed.

Lemma substring_all (m : string) : substring 0 (String.length m) m = m.
Proof. induction m as [|c m IH]; cbn; [reflexivity|]. by rewrite IH. Qed.

(** *** The text that toFixed prints in its fixed range *)

Lemma digits_nonempty (q : Z) :
  0 < q → (1 ≤ String.length (Num.digits q))%nat.
Proof.
  intros Hq. destruct q as [|p|p]; try lia.
  unfold Num.digits.
  change (N.to_uint (Z.to_N (Z.pos p))) with (Pos.to_uint p).
  destruct (to_uint_head p) as (h & u & Hh & ->).
  digit_cases h; cbn; lia.
Qed.

Lemma append_assoc (a b c : string) : (a +:+ b) +:+ c = a +:+ (b +:+ c).
Proof.
  induction a as [|x a IH]; [reflexivity|].
  change (String x ((a +:+ b) +:+ c) = String x (a +:+ (b +:+ c))).
  by rewrite IH.
Qed.

Lemma length_append (a b : string) :
  String.length (a +:+ b) = (String.length a + String.length b)%nat.
Proof.
  induction a as [|x a IH]; [reflexivity|].
  change (S (String.length (a +:+ b))
          = S (String.length a + String.length b)).
  by rewrite IH.
Qed.

Lemma substring_prefix (a b : string) :
  substring 0 (String.length a) (a +:+ b) = a.
Proof.
  induction a as [|x a IH]; [by destruct b|].
  change (String x (substring 0 (String.length a) (a +:+ b)) = String x a).
  by rewrite IH.
Qed.

Lemma substring_suffix (a b : string) :
  substring (String.length a) (String.length b) (a +:+ b) = b.
Proof.
  induction a as [|x a IH]; [apply substring_all|]. exact IH.
Qed.

Lemma fixed2_small :
  forallb (λ i, String.eqb (Num.fixed2 (Z.of_nat i))
                  (hundredths_numeral (Z.of_nat i))) (seq 0 100) = true.
Proof. vm_compute. reflexivity. Qed.

Lemma fixed2_numeral (n : Z) :
  0 <= n → Num.fixed2 n = hundredths_numeral n.
Proof.
  intros Hn. destruct (Z.lt_ge_cases n 100) as [Hs|Hl].
  - pose proof fixed2_small as H. rewrite forallb_forall in H.
    specialize (H (Z.to_nat n)). rewrite Z2Nat.id in H by lia.
    apply String.eqb_eq, H, in_seq. lia.
  - set (q := n / 100). set (r1 := n / 10 mod 10). set (r0 := n mod 10).
    assert (Hq : 0 < q) by (subst q; apply Z.div_str_pos; lia).
    assert (Hr1 : 0 <= r1 < 10) by (subst r1; apply Z.mod_pos_bound; lia).
    assert (Hr0 : 0 <= r0 < 10) by (subst r0; apply Z.mod_pos_bound; lia).
    assert (En : n = 10 * (10 * q + r1) + r0).
    { subst q r1 r0.
      pose proof (Z.div_div n 10 10 ltac:(lia) ltac:(lia)) as Hdd.
      change (10 * 10) with 100 in Hdd. rewrite <- Hdd.
      pose proof (Z.div_mod n 10 ltac:(lia)).
      pose proof (Z.div_mod (n / 10) 10 ltac:(lia)). lia. }
    set (a := Num.digits q).
    set (b := String (digit_char r1) (String (digit_char r0) "")).
    assert (Hd : Num.digits n = a +:+ b).
    { rewrite En, (digits_snoc (10 * q + r1) r0) by lia.
      rewrite (digits_snoc q r1) by lia. apply append_assoc. }
    pose proof (digits_nonempty q Hq) as Ha. fold a in Ha.
    assert (Hb : String.length b = 2%nat) by reflexivity.
    assert (Hz : (3 - String.length (a +:+ b) = 0)%nat)
      by (rewrite length_append; lia).
    unfold hundredths_numeral. fold q r1 r0.
    change (NilZero.string_of_uint (N.to_uint (Z.to_N q))) with a.
    unfold Num.fixed2. rewrite Hd, Hz.
    change (Num.zeros 0 +:+ (a +:+ b)) with (a +:+ b).
    rewrite length_append, Hb.
    replace (String.length a + 2 - 2)%nat with (String.length a) by lia.
    rewrite substring_prefix. rewrite <- Hb at 1. rewrite substring_suffix.
    reflexivity.
Qed.

Lemma nearest_hundredths_nearest (m : positive) (e : Z) (s : bool) :
  (- (1 # 200) < inject_Z (Num.nearest_hundredths m e) / 100
                 - Num.magnitude (S754_finite s m e))%Q
  ∧ (inject_Z (Num.nearest_hundredths m e) / 100
     - Num.magnitude (S754_finite s m e) <= 1 # 200)%Q.
Proof.
  destruct e as [|p|p]; unfold Num.nearest_hundredths, Num.magnitude.
  - unfold Qlt, Qle, Qminus, Qplus, Qdiv, Qmult, Qinv, Qopp, inject_Z; simpl.
    split; lia.
  - unfold Qlt, Qle, Qminus, Qplus, Qdiv, Qmult, Qinv, Qopp, inject_Z; simpl.
    split; lia.
  - assert (HP : (0 < 2 ^ Z.pos p)%Z) by (apply Z.pow_pos_nonneg; lia).
    assert (H2 : (2 ^ (Z.pos p + 1) = 2 * 2 ^ Z.pos p)%Z)
      by (rewrite Z.pow_add_r by lia; lia).
    rewrite H2.
    pose proof (Z.div_mod (200 * Z.pos m + 2 ^ Z.pos p) (2 * 2 ^ Z.pos p)
                  ltac:(lia)) as Hdm.
    pose proof (Z.mod_pos_bound (200 * Z.pos m + 2 ^ Z.pos p)
                  (2 * 2 ^ Z.pos p) ltac:(lia)) as Hb.
    set (n := ((200 * Z.pos m + 2 ^ Z.pos p) / (2 * 2 ^ Z.pos p))%Z) in *.
    unfold Qlt, Qle, Qminus, Qplus, Qdiv, Qmult, Qinv, Qopp, inject_Z; simpl.
    rewrite !Pos2Z.inj_mul, !Pos2Z.inj_pow.
    set (P := (2 ^ Z.pos p)%Z) in *.
    split; nia.
Qed.

Lemma toFixed2_rounded (x : Num.number) :
  Num.fixed_range x = true → rounded_to_two_decimals (Num.toFixed2 x) x.
Proof.
  destruct x as [s| s | |s m e]; try discriminate.
  - intros _. exists 0. split; [lia|]. split; [reflexivity|].
    split; [vm_compute; discriminate|reflexivity].
  - unfold Num.fixed_range. intros Hr.
    exists (Num.nearest_hundredths m e).
    pose proof (nearest_hundredths_nonneg m e) as Hn.
    destruct (nearest_hundredths_nearest m e s) as [Hlo Hhi].
    split; [exact Hn|]. split; [exact Hlo|]. split; [exact Hhi|].
    unfold Num.toFixed2, Num.sign_prefix.
    destruct (Num.at_least_1e21 m e); [discriminate|].
    rewrite (fixed2_numeral _ Hn). by destruct s.
Qed.

Lemma rounded_to_two_decimals_unique (t1 t2 : string) (x : Num.number) :
  rounded_to_two_decimals t1 x → rounded_to_two_decimals t2 x → t1 = t2.
Proof.
  intros (n1 & _ & Hl1 & Hh1 & ->) (n2 & _ & Hl2 & Hh2 & ->).
  assert (n1 = n2) as ->; [|reflexivity].
  destruct (Num.magnitude x) as [a b].
  revert Hl1 Hh1 Hl2 Hh2.
  unfold Qlt, Qle, Qminus, Qplus, Qdiv, Qmult, Qinv, Qopp, inject_Z; simpl.
  intros. nia.
Qed.

Lemma point_before_last_two (a : string) (c1 c0 : ascii) :
  String.get (String.length a) (a +:+ "." +:+ String c1 (String c0 ""))
  = Some "."%char.
Proof. induction a as [|x a IH]; [reflexivity|]. exact IH. Qed.

Lemma length_two_decimals (a : string) (c1 c0 : ascii) :
  String.length (a +:+ "." +:+ String c1 (String c0 ""))
  = (String.length a + 3)%nat.
Proof. by rewrite length_append. Qed.

Lemma rounded_has_point (text : string) (x : Num.number) :
  rounded_to_two_decimals text x →
  ∃ k, String.length text = (k + 3)%nat ∧ String.get k text = Some "."%char.
Proof.
  intros (n & _ & _ & _ & ->). unfold hundredths_numeral.
  rewrite <- append_assoc.
  eexists. split; [apply length_two_decimals|apply point_before_last_two].
Qed.


(** *** C3 *)

(** C3, as stated, fails: a candidate of [10^24] meters and [6 * 10^22]
    seconds shows "1e+21 km" and "1e+21 min", and one whose duration is not
    a number shows "NaN"; none of these texts is a number rounded to two
    decimal places, whatever the number.  From [10^21] on toFixed prints as
    Number::toString does. *)
Lemma huge_distance_shown_with_exponent :
  Route.distance (Hook.toRoute huge_feature) = "1e+21"
  ∧ Route.duration (Hook.toRoute huge_feature) = "1e+21"
  ∧ Route.duration (Hook.toRoute timeless_feature) = "NaN"
  ∧ Flat.toRoute huge_feature = Hook.toRoute huge_feature
  ∧ (∀ prev,
       distance (fst (Hook.fetchRoute_settle
                        (Resolved (Some [huge_feature])) prev))
       = "1e+21 km"
       ∧ duration (fst (Hook.fetchRoute_settle
                          (Resolved (Some [huge_feature])) prev))
         = "1e+21 min")
  ∧ (∀ x, ¬ rounded_to_two_decimals
              (Route.distance (Hook.toRoute huge_feature)) x)
  ∧ (∀ x, ¬ rounded_to_two_decimals
              (Route.duration (Hook.toRoute huge_feature)) x)
  ∧ (∀ x, ¬ rounded_to_two_decimals
              (Route.duration (Hook.toRoute timeless_feature)) x).
Proof.
  assert (Hd : Route.distance (Hook.toRoute huge_feature) = "1e+21")
    by (vm_compute; reflexivity).
  assert (Ht : Route.duration (Hook.toRoute huge_feature) = "1e+21")
    by (vm_compute; reflexivity).
  assert (Hn : Route.duration (Hook.toRoute timeless_feature) = "NaN")
    by (vm_compute; reflexivity).
  split; [exact Hd|]. split; [exact Ht|]. split; [exact Hn|].
  split; [reflexivity|].
  split; [intros prev; split; vm_compute; reflexivity|].
  rewrite Hd, Ht, Hn.
  assert (H : ∀ x, ¬ rounded_to_two_decimals "1e+21" x).
  { intros x Hx. destruct (rounded_has_point _ _ Hx) as (k & Hk & Hp).
    cbn in Hk. assert (k = 2%nat) as -> by lia. discriminate Hp. }
  split; [exact H|]. split; [exact H|].
  intros x Hx. destruct (rounded_has_point _ _ Hx) as (k & Hk & Hp).
  cbn in Hk. assert (k = 0%nat) as -> by lia. discriminate Hp.
Qed.

(** C3, amended: of a route made from a feature, the distance is the
    binary64 quotient of the meters by 1000 rounded to two decimal places
    when that quotient is finite and below [10^21] in magnitude, and the
    duration is the quotient of the seconds by 60 rounded to two decimal
    places when that quotient is finite and below [10^21] in magnitude:
    the sign, then the numeral of the nearest number of hundredths, the
    larger one on a tie.  Each of the two needs its own quotient in range
    only.  Both components make the same route; 12345 meters give
    "12.35 km" and 987 seconds give "16.45 min". *)
Theorem route_shows_rounded_km_and_min (feature : Feature.t) :
  (Num.fixed_range
     (Num.div (Feature.summary_distance feature) (Num.of_Z 1000)) = true →
   rounded_to_two_decimals
     (Route.distance (Hook.toRoute feature))
     (Num.div (Feature.summary_distance feature) (Num.of_Z 1000)))
  ∧ (Num.fixed_range
       (Num.div (Feature.summary_duration feature) (Num.of_Z 60)) = true →
     rounded_to_two_decimals
       (Route.duration (Hook.toRoute feature))
       (Num.div (Feature.summary_duration feature) (Num.of_Z 60)))
  ∧ Flat.toRoute feature = Hook.toRoute feature
  ∧ (∀ prev coordinates rest,
       distance (fst (Hook.fetchRoute_settle
                        (Resolved (Some
                           (Feature.mk coordinates (Num.of_Z 12345)
                              (Num.of_Z 987) :: rest))) prev))
         = "12.35 km"
       ∧ duration (fst (Hook.fetchRoute_settle
                          (Resolved (Some
                             (Feature.mk coordinates (Num.of_Z 12345)
                                (Num.of_Z 987) :: rest))) prev))
         = "16.45 min").
Proof.
  split; [exact (toFixed2_rounded _)|].
  split; [exact (toFixed2_rounded _)|].
  split; [reflexivity|].
  intros prev coordinates rest. split; vm_compute; reflexivity.
Qed.

Lemma route_shows_rounded_km_and_min_witness :
  rounded_to_two_decimals (Route.distance (Hook.toRoute sample_feature))
    (Num.div (Num.of_Z 12345) (Num.of_Z 1000))
  ∧ rounded_to_two_decimals (Route.duration (Hook.toRoute sample_feature))
      (Num.div (Num.of_Z 987) (Num.of_Z 60))
  ∧ Route.distance (Hook.toRoute sample_feature) = "12.35"
  ∧ Route.duration (Hook.toRoute sample_feature) = "16.45".
Proof.
  destruct (route_shows_rounded_km_and_min sample_feature)
    as (Hd & Ht & _).
  split; [apply Hd; vm_compute; reflexivity|].
  split; [apply Ht; vm_compute; reflexivity|].
  split; vm_compute; reflexivity.
Defined.

(** The range is as wide as it can be: the largest binary64 number below
    [10^21] is still printed with two decimals. *)
Lemma largest_fixed_quotient :
  Num.fixed_range (Num.div (Num.of_Z (10 ^ 24 - 2 ^ 27)) (Num.of_Z 1000))
  = true
  ∧ Num.toFixed2 (Num.div (Num.of_Z (10 ^ 24 - 2 ^ 27)) (Num.of_Z 1000))
    = "999999999999999868928.00".
Proof. split; vm_compute; reflexivity. Qed.

(** *** The route fetch *)

Lemma hook_fetchRoute_absent (key : string) (s : State) :
  origin s = None ∨ destination s = None →
  Hook.fetchRoute key s
  = (set_routeError "Please set both origin and destination." s, []).
Proof.
  unfold Hook.fetchRoute. intros [-> | H]; [reflexivity|].
  rewrite H. destruct (origin s); reflexivity.
Qed.

Lemma flat_fetchRoute_absent (key : string) (s : State) :
  origin s = None ∨ destination s = None →
  Flat.fetchRoute key s
  = (set_routeError "Please set both origin and destination." s, []).
Proof.
  unfold Flat.fetchRoute. intros [-> | H]; [reflexivity|].
  rewrite H. destruct (origin s); reflexivity.
Qed.

(** Case analysis of one step of a component: every [match] of the
    handlers is split, in the goal and in the hypotheses. *)
Ltac unfold_handlers :=
  unfold Hook.LocationMarker_click, Hook.handleSearch, Hook.selectLocation,
    Hook.setCurrentLocation, Hook.fetchRoute, Hook.handleRouteChange,
    Hook.fetchRoute_settle, Hook.fetchRoute_try, Hook.handleSearch_settle,
    Hook.selectLocation_settle, Hook.setName, Hook.resetRoute, Hook.setMode,
    Flat.LocationMarker_click, Flat.handleSearch, Flat.selectLocation,
    Flat.setCurrentLocationAsOrigin, Flat.fetchRoute, Flat.handleRouteChange,
    Flat.fetchRoute_settle, Flat.fetchRoute_try, Flat.handleSearch_settle,
    Flat.selectLocation_settle, Flat.setName, Flat.resetRoute,
    fetchLocationName_settle, no_features in *.

Ltac step_cases e :=
  unfold step, handle, useEffect, name_settle in *;
  destruct e; cbn -[deps_changed] in *;
  unfold_handlers;
  repeat case_match; simplify_eq/=.

(** Whatever the event, a route request that a step sends carries the
    mode, origin and destination of the session it leaves. *)
Lemma step_route_request (key : string) (C : Component) (c : Config)
  (e : Event) (m : TravelMode) (o d : LatLng.t) :
  C = hook key ∨ C = flat key →
  In (Send (RouteRequest m o d)) (snd (step C c e)) →
  mode (session (fst (step C c e))) = m
  ∧ origin (session (fst (step C c e))) = Some o
  ∧ destination (session (fst (step C c e))) = Some d.
Proof.
  destruct c as [s pend].
  intros [-> | ->]; step_cases e; intuition (simplify_eq/=; auto).
Qed.

(** *** C2 *)

(** C2: with the origin or the destination absent, the route fetch sends
    no request and changes nothing but the error message, which becomes
    the rejection message; and a request to the directions service is only
    ever sent, by the fetch or by any step of the component, when origin
    and destination are both present. *)
Theorem fetch_needs_origin_and_destination (key : string) (s : State) :
  origin s = None ∨ destination s = None →
  Hook.fetchRoute key s
    = (set_routeError "Please set both origin and destination." s, [])
  ∧ Flat.fetchRoute key s
    = (set_routeError "Please set both origin and destination." s, [])
  ∧ (∀ C c e m o d,
       C = hook key ∨ C = flat key →
       In (Send (RouteRequest m o d)) (snd (step C c e)) →
       origin (session (fst (step C c e))) = Some o
       ∧ destination (session (fst (step C c e))) = Some d).
Proof.
  intros H. split; [|split].
  - by apply hook_fetchRoute_absent.
  - by apply flat_fetchRoute_absent.
  - intros C c e m o d HC Hin.
    destruct (step_route_request key C c e m o d HC Hin) as (_ & Ho & Hd).
    by split.
Qed.

Lemma fetch_needs_origin_and_destination_witness :
  Hook.fetchRoute "key" (set_origin (Some london) initial_state)
  = (set_routeError "Please set both origin and destination."
       (set_origin (Some london) initial_state), []).
Proof.
  apply (fetch_needs_origin_and_destination "key"
           (set_origin (Some london) initial_state)).
  right. reflexivity.
Defined.

(** *** C5 *)

(** C5: a reply with at least one feature stores the whole list of
    converted candidates, selects index 0 and shows the distance and the
    duration of candidate 0. *)
Theorem fetch_success_selects_first (f : Feature.t) (fs : list Feature.t)
  (prev : State) :
  let candidates := map Hook.toRoute (f :: fs) in
  let s := fst (Hook.fetchRoute_settle (Resolved (Some (f :: fs))) prev) in
  let s' := fst (Flat.fetchRoute_settle (Resolved (Some (f :: fs))) prev) in
  routes s = candidates
  ∧ selectedRouteIndex s = 0%nat
  ∧ distance s = Route.distance (Hook.toRoute f) +:+ " km"
  ∧ duration s = Route.duration (Hook.toRoute f) +:+ " min"
  ∧ s' = s.
Proof. cbn. repeat split; reflexivity. Qed.

(** *** C6 *)

Lemma deps_unchanged (s s' : State) :
  mode s' = mode s → origin s' = origin s → destination s' = destination s →
  deps_changed false s s' = false.
Proof.
  intros Hm Ho Hd. unfold deps_changed. rewrite Hm, Ho, Hd.
  rewrite !bool_decide_false by (intros H; by apply H). reflexivity.
Qed.

(** C6: selecting the candidate at a valid index [i] sets the selected
    index to [i] and shows the distance and duration of candidate [i];
    nothing is sent, and origin, destination, mode, routes and error are
    left as they were. *)
Theorem route_change_selects_candidate (key : string) (C : Component)
  (c : Config) (i : nat) (route : Route.t) :
  C = hook key ∨ C = flat key →
  routes (session c) !! i = Some route →
  let s := session c in
  let s' := session (fst (step C c (RouteButtonClick i))) in
  s' = set_duration (Route.duration route +:+ " min")
         (set_distance (Route.distance route +:+ " km")
            (set_selectedRouteIndex i s))
  ∧ selectedRouteIndex s' = i
  ∧ distance s' = Route.distance route +:+ " km"
  ∧ duration s' = Route.duration route +:+ " min"
  ∧ snd (step C c (RouteButtonClick i)) = []
  ∧ pending (fst (step C c (RouteButtonClick i))) = pending c
  ∧ origin s' = origin s ∧ destination s' = destination s
  ∧ mode s' = mode s ∧ routes s' = routes s
  ∧ routeError s' = routeError s
  ∧ c_handleRouteChange C i s = (s', []).
Proof.
  intros HC Hi.
  destruct c as [s pend]. cbn [session pending] in *.
  assert (Hlt : (i <? length (routes s))%nat = true).
  { apply Nat.ltb_lt. by eapply lookup_lt_Some. }
  assert (Hh : c_handleRouteChange C i s
               = (set_duration (Route.duration route +:+ " min")
                    (set_distance (Route.distance route +:+ " km")
                       (set_selectedRouteIndex i s)), [])).
  { destruct HC as [-> | ->]; cbn;
      unfold Hook.handleRouteChange, Flat.handleRouteChange; by rewrite Hi. }
  unfold step, handle. cbn [session pending]. rewrite Hlt, Hh.
  rewrite deps_unchanged by reflexivity.
  unfold useEffect. cbn.
  destruct (origin s) eqn:Ho, (destination s) eqn:Hd,
    (isLoadingRoute s) eqn:Hl; cbn;
    rewrite ?app_nil_r; by repeat split.
Qed.
Lemma route_change_selects_candidate_witness :
  let c := after (hook "key")
             [MapClick london; MapClick paris;
              RouteReply 2 (Resolved (Some [sample_feature; shorter_feature]))]
  in
  selectedRouteIndex (session (fst (step (hook "key") c (RouteButtonClick 1))))
  = 1%nat
  ∧ distance (session (fst (step (hook "key") c (RouteButtonClick 1))))
    = "4.80 km".
Proof.
  intros c.
  destruct (route_change_selects_candidate "key" (hook "key") c 1
              (Hook.toRoute shorter_feature))
    as (_ & Hi & Hd & _).
  - left. reflexivity.
  - vm_compute. reflexivity.
  - split; [exact Hi|]. rewrite Hd. vm_compute. reflexivity.
Defined.

(** *** C4 *)

(** C4, as stated, fails: after a change of travel mode a reset does not
    give back the initial session. *)
Lemma reset_keeps_travel_mode :
  session (after (hook "key") [ModeSelect cycling_regular; ResetClick])
  ≠ initial_state
  ∧ Hook.resetRoute (set_mode cycling_regular initial_state) ≠ initial_state
  ∧ Flat.resetRoute (set_mode cycling_regular initial_state) ≠ initial_state.
Proof. repeat split; vm_compute; discriminate. Qed.

(** C4, amended: a reset gives every field its initial value except the
    travel mode and the loading flag, which it leaves as they are. *)
Theorem reset_clears_all_but_mode_and_loading (s : State) :
  Hook.resetRoute s
    = set_isLoadingRoute (isLoadingRoute s) (set_mode (mode s) initial_state)
  ∧ Flat.resetRoute s = Hook.resetRoute s
  ∧ origin (Hook.resetRoute s) = None
  ∧ destination (Hook.resetRoute s) = None
  ∧ originName (Hook.resetRoute s) = ""
  ∧ destinationName (Hook.resetRoute s) = ""
  ∧ routes (Hook.resetRoute s) = []
  ∧ selectedRouteIndex (Hook.resetRoute s) = 0%nat
  ∧ distance (Hook.resetRoute s) = ""
  ∧ duration (Hook.resetRoute s) = ""
  ∧ searchTerm (Hook.resetRoute s) = ""
  ∧ searchResults (Hook.resetRoute s) = []
  ∧ routeError (Hook.resetRoute s) = ""
  ∧ mode (Hook.resetRoute s) = mode s
  ∧ isLoadingRoute (Hook.resetRoute s) = isLoadingRoute s.
Proof. cbn. repeat (split; [reflexivity|]). reflexivity. Qed.

(** *** C8 *)

(** C8, as stated, fails: results shown before a failed search are still
    there after it. *)
Lemma failed_search_keeps_results :
  let c := after (hook "key")
             [SearchChange "lon"; SearchReply 0 (Resolved [sample_result]);
              SearchChange "lond"] in
  pending c = [SearchRequest "lond"]
  ∧ searchResults
      (session (fst (step (hook "key") c
                       (SearchReply 0 (Rejected "Network Error")))))
    = [sample_result]
  ∧ searchResults
      (fst (Flat.handleSearch_settle (Rejected "Network Error") (session c)))
    ≠ [].
Proof. repeat split; vm_compute; discriminate. Qed.

(** C8, amended: a search whose request fails leaves the session as it was,
    search results included, logs the failure and sets no error; a query
    shorter than 3 characters empties the result list and sends nothing. *)
Theorem failed_search_changes_nothing (message term : string)
  (prev : State) :
  (String.length term < 3)%nat →
  Hook.handleSearch_settle (Rejected message) prev
    = (prev, [ConsoleError "Error fetching address suggestions:" message])
  ∧ Flat.handleSearch_settle (Rejected message) prev
    = (prev, [ConsoleError "Error fetching address suggestions:" message])
  ∧ Hook.handleSearch term prev
    = (set_searchResults [] (set_searchTerm term prev), [])
  ∧ Flat.handleSearch term prev
    = (set_searchResults [] (set_searchTerm term prev), [])
  ∧ (∀ key C c,
       C = hook key ∨ C = flat key →
       step C c (SearchChange term)
       = ({| session := set_searchResults [] (set_searchTerm term (session c));
             pending := pending c |}, [])).
Proof.
  intros Hlen. apply Nat.ltb_lt in Hlen.
  split; [reflexivity|]. split; [reflexivity|].
  assert (Hh : Hook.handleSearch term prev
               = (set_searchResults [] (set_searchTerm term prev), [])).
  { unfold Hook.handleSearch. by rewrite Hlen. }
  assert (Hf : Flat.handleSearch term prev
               = (set_searchResults [] (set_searchTerm term prev), [])).
  { unfold Flat.handleSearch. by rewrite Hlen. }
  split; [exact Hh|]. split; [exact Hf|].
  intros key C [s pend] HC. unfold step, handle. cbn [session pending].
  assert (HC' : c_handleSearch C term s
                = (set_searchResults [] (set_searchTerm term s), [])).
  { destruct HC as [-> | ->]; cbn;
      unfold Hook.handleSearch, Flat.handleSearch; by rewrite Hlen. }
  rewrite HC'. rewrite deps_unchanged by reflexivity.
  unfold useEffect. cbn.
  destruct (origin s), (destination s), (isLoadingRoute s); cbn;
    by rewrite ?app_nil_r.
Qed.

Lemma failed_search_changes_nothing_witness :
  Hook.handleSearch "lo" initial_state
  = (set_searchResults [] (set_searchTerm "lo" initial_state), []).
Proof.
  apply (failed_search_changes_nothing "Network Error" "lo" initial_state).
  cbn. lia.
Defined.

(** ** Properties of the running component *)

Lemma sends_app (l1 l2 : list Effect) :
  sends (l1 ++ l2) = sends l1 ++ sends l2.
Proof.
  induction l1 as [|[] l1 IH]; cbn; by rewrite ?IH.
Qed.

Lemma route_requests_app (l1 l2 : list Pending) :
  route_requests (l1 ++ l2) = (route_requests l1 + route_requests l2)%nat.
Proof. unfold route_requests. by rewrite List.filter_app, length_app. Qed.

Lemma route_requests_delete (l : list Pending) (k : nat) (p : Pending) :
  l !! k = Some p →
  route_requests l
  = ((if is_route_request p then 1 else 0) + route_requests (delete k l))%nat.
Proof.
  revert k. induction l as [|q l IH]; intros [|k] Hk; try discriminate.
  - cbn in Hk. injection Hk as ->. unfold route_requests. cbn.
    destruct (is_route_request p); reflexivity.
  - cbn in Hk. specialize (IH k Hk). unfold route_requests in *. cbn.
    revert IH. destruct (is_route_request p), (is_route_request q); cbn;
      by intros ->.
Qed.

(** The step in two halves: the handler, then the effect. *)
Lemma step_unfold (C : Component) (c : Config) (e : Event) :
  step C c e
  = match handle C c e with
    | None => (c, [])
    | Some (s1, effects1, waiting) =>
        let r := useEffect C (deps_changed (stores_location e) (session c) s1)
                   s1 in
        ({| session := fst r;
            pending := (waiting ++ sends effects1) ++ sends (snd r) |},
         effects1 ++ snd r)
    end.
Proof.
  unfold step. destruct (handle C c e) as [[[s1 effects1] waiting]|];
    [|reflexivity].
  cbn. destruct (useEffect C _ s1) as [s2 effects2]. cbn.
  by rewrite sends_app, app_assoc.
Qed.

Lemma route_requests_one (p : Pending) :
  route_requests [p] = if is_route_request p then 1%nat else 0%nat.
Proof. unfold route_requests. cbn. by destruct (is_route_request p). Qed.

Ltac split_loading :=
  repeat match goal with
         | H : context [if ?b then _ else _] |- _ =>
             let x := fresh "loading" in remember b as x in *; destruct x
         | |- context [if ?b then _ else _] =>
             let x := fresh "loading" in remember b as x in *; destruct x
         end.

Ltac consistent_done :=
  repeat match goal with
         | H : (_ <? _)%nat = true |- _ => apply Nat.ltb_lt in H
         | H : (_ <=? _)%nat = true |- _ => apply Nat.leb_le in H
         end;
  unfold consistent, selection_valid in *; cbn -[route_requests] in *;
  rewrite ?app_nil_r, ?route_requests_app, ?route_requests_one;
  repeat match goal with
         | H : ?l !! ?k = Some ?p |- context [route_requests (delete ?k ?l)] =>
             pose proof (route_requests_delete l k p H); clear H
         end;
  cbn -[route_requests] in *;
  repeat match goal with
         | H : _ ∧ _ |- _ => destruct H
         end;
  split_loading;
  repeat split; intros; try done; try lia;
  try (by eapply lookup_lt_Some);
  auto with lia.

Lemma useEffect_consistent (key : string) (C : Component) (changed : bool)
  (s : State) (waiting : list Pending) :
  C = hook key ∨ C = flat key →
  consistent {| session := s; pending := waiting |} →
  consistent {| session := fst (useEffect C changed s);
                pending := waiting ++ sends (snd (useEffect C changed s)) |}.
Proof.
  intros HC H. unfold useEffect.
  destruct (origin s) eqn:Ho, (destination s) eqn:Hd,
    (isLoadingRoute s) eqn:Hl, changed;
    cbn; rewrite ?app_nil_r; try exact H.
  destruct HC as [-> | ->]; cbn;
    unfold Hook.fetchRoute, Flat.fetchRoute; rewrite Ho, Hd;
    destruct key; consistent_done.
Qed.

Lemma resetRoute_record (key : string) (C : Component) (s : State) :
  C = hook key ∨ C = flat key →
  c_resetRoute C s
  = mkState None None "" "" [] 0 "" "" "" [] (mode s) (isLoadingRoute s) "".
Proof. intros [-> | ->]; destruct s; reflexivity. Qed.

Lemma handle_consistent (key : string) (C : Component) (c : Config)
  (e : Event) (s1 : State) (effects1 : list Effect) (waiting : list Pending) :
  C = hook key ∨ C = flat key →
  consistent c →
  handle C c e = Some (s1, effects1, waiting) →
  consistent {| session := s1; pending := waiting ++ sends effects1 |}.
Proof.
  destruct c as [s pend]. intros HC H He.
  unfold handle, name_settle in He. destruct e;
    try rewrite (resetRoute_record key C _ HC) in He;
    destruct s; destruct HC as [-> | ->];
    cbn in He; unfold_handlers; repeat case_match; simplify_eq/=.
  all: consistent_done.
Qed.

Lemma step_consistent (key : string) (C : Component) (c : Config)
  (e : Event) :
  C = hook key ∨ C = flat key →
  consistent c → consistent (fst (step C c e)).
Proof.
  intros HC H. rewrite step_unfold.
  destruct (handle C c e) as [[[s1 effects1] waiting]|] eqn:He; [|exact H].
  cbn. apply (useEffect_consistent key); [exact HC|].
  by eapply handle_consistent.
Qed.

Lemma run_consistent (key : string) (C : Component) (events : list Event)
  (c : Config) :
  C = hook key ∨ C = flat key →
  consistent c → consistent (fst (run C c events)).
Proof.
  intros HC. revert c. induction events as [|e events IH]; intros c H.
  - exact H.
  - cbn. pose proof (step_consistent key C c e HC H) as H1.
    destruct (step C c e) as [c1 effects1]. cbn in H1.
    specialize (IH c1 H1).
    destruct (run C c1 events) as [c2 effects2]. exact IH.
Qed.

Lemma initial_consistent : consistent initial_config.
Proof. unfold consistent, selection_valid. cbn. by repeat split. Qed.

Lemma after_consistent (key : string) (C : Component)
  (events : list Event) :
  C = hook key ∨ C = flat key → consistent (after C events).
Proof.
  intros HC. apply (run_consistent key); [exact HC|].
  exact initial_consistent.
Qed.

(** *** C9 *)

(** C9: in every state that the component reaches from the initial one by
    clicks, searches, mode changes, candidate selections with the rendered
    buttons, resets and settled requests, a non-empty route list has its
    selected index among its positions. *)
Theorem selected_index_always_valid (key : string) (C : Component)
  (events : list Event) :
  C = hook key ∨ C = flat key →
  routes (session (after C events)) ≠ [] →
  (selectedRouteIndex (session (after C events))
   < length (routes (session (after C events))))%nat.
Proof.
  intros HC. by apply (after_consistent key C events).
Qed.

Lemma selected_index_always_valid_witness :
  (selectedRouteIndex (session (after (flat "key") sample_events))
   < length (routes (session (after (flat "key") sample_events))))%nat.
Proof.
  refine (selected_index_always_valid "key" (flat "key") sample_events _ _).
  - right. reflexivity.
  - vm_compute. discriminate.
Defined.

(** *** Settling the route request *)

Lemma settle_keeps_triple (key : string) (C : Component)
  (reply : Reply RouteData) (s : State) :
  C = hook key ∨ C = flat key →
  mode (fst (c_fetchRoute_settle C reply s)) = mode s
  ∧ origin (fst (c_fetchRoute_settle C reply s)) = origin s
  ∧ destination (fst (c_fetchRoute_settle C reply s)) = destination s
  ∧ sends (snd (c_fetchRoute_settle C reply s)) = [].
Proof.
  intros [-> | ->]; destruct s; cbn; unfold_handlers;
    repeat case_match; simplify_eq/=; by repeat split.
Qed.

(** A settled route request resumes [fetchRoute] and nothing else: the
    effect has no dependency changed. *)
Lemma step_route_reply (key : string) (C : Component) (c : Config)
  (k : nat) (m : TravelMode) (o d : LatLng.t) (reply : Reply RouteData) :
  C = hook key ∨ C = flat key →
  pending c !! k = Some (RouteRequest m o d) →
  step C c (RouteReply k reply)
  = ({| session := fst (c_fetchRoute_settle C reply (session c));
        pending := delete k (pending c) |},
     snd (c_fetchRoute_settle C reply (session c))).
Proof.
  intros HC Hk.
  destruct (settle_keeps_triple key C reply (session c) HC)
    as (Hm & Ho & Hd & Hs).
  rewrite step_unfold. unfold handle. rewrite Hk.
  destruct (c_fetchRoute_settle C reply (session c)) as [s1 log] eqn:E.
  cbn [fst snd stores_location] in *.
  rewrite (deps_unchanged (session c) s1 Hm Ho Hd).
  unfold useEffect.
  destruct (origin s1), (destination s1), (isLoadingRoute s1); cbn;
    by rewrite Hs, !app_nil_r.
Qed.

Lemma pending_route_request (c : Config) (k : nat) (m : TravelMode)
  (o d : LatLng.t) :
  consistent c →
  pending c !! k = Some (RouteRequest m o d) →
  isLoadingRoute (session c) = true ∧ routes (session c) = [].
Proof.
  intros (Hn & Hr & _) Hk.
  pose proof (route_requests_delete (pending c) k _ Hk) as Hc. cbn in Hc.
  destruct (isLoadingRoute (session c)); [by auto|].
  rewrite Hn in Hc. discriminate.
Qed.

Lemma hook_settle_no_features (data : RouteData) (s : State) :
  no_features data = true →
  Hook.fetchRoute_settle (Resolved data) s
  = (set_isLoadingRoute false
       (set_routeError "Failed to fetch route: No routes found." s),
     [ConsoleError "Error fetching route:" "No routes found."]).
Proof.
  intros Hn. unfold Hook.fetchRoute_settle, Hook.fetchRoute_try.
  rewrite Hn. reflexivity.
Qed.

Lemma flat_settle_no_features (data : RouteData) (s : State) :
  no_features data = true →
  Flat.fetchRoute_settle (Resolved data) s
  = (set_isLoadingRoute false
       (set_routeError
          "Failed to fetch route: No routes found in the API response." s),
     [ConsoleError "Error fetching route:"
        "No routes found in the API response."]).
Proof.
  intros Hn. unfold Flat.fetchRoute_settle, Flat.fetchRoute_try.
  rewrite Hn. reflexivity.
Qed.

Lemma hook_not_flat (key key' : string) : hook key ≠ flat key'.
Proof.
  intros H.
  pose proof (f_equal
                (λ C, routeError
                        (fst (c_fetchRoute_settle C (Resolved None)
                                initial_state))) H) as H'.
  vm_compute in H'. discriminate.
Qed.

(** *** C7 *)

(** C7: with origin and destination present, the route fetch with an empty
    credential sets the missing-key error and sends nothing; and when the
    directions service answers the pending request with no feature, the
    session ends with the "No routes found" error, the loading flag down
    and an empty route list. *)
Theorem fetch_fails_on_missing_key_or_empty_reply (key : string)
  (C : Component) (events : list Event) (k : nat) (m : TravelMode)
  (o d : LatLng.t) (data : RouteData) :
  C = hook key ∨ C = flat key →
  pending (after C events) !! k = Some (RouteRequest m o d) →
  no_features data = true →
  let s' := session (fst (step C (after C events)
                            (RouteReply k (Resolved data)))) in
  routes s' = []
  ∧ isLoadingRoute s' = false
  ∧ (C = hook key →
     routeError s' = "Failed to fetch route: No routes found.")
  ∧ (C = flat key →
     routeError s'
     = "Failed to fetch route: No routes found in the API response.")
  ∧ (∀ s o' d',
       origin s = Some o' → destination s = Some d' →
       Hook.fetchRoute "" s = (set_routeError "API key is missing." s, [])
       ∧ Flat.fetchRoute "" s
         = (set_routeError
              "API key is missing. Please configure the OpenRouteService API key."
              s, [])).
Proof.
  intros HC Hk Hn s'.
  pose proof (after_consistent key C events HC) as Hc.
  destruct (pending_route_request _ k m o d Hc Hk) as [_ Hr].
  subst s'. rewrite (step_route_reply key C _ k m o d _ HC Hk).
  cbn [fst snd session].
  destruct HC as [-> | ->]; cbn [c_fetchRoute_settle hook flat].
  - rewrite (hook_settle_no_features data _ Hn). cbn [fst].
    split; [exact Hr|]. split; [reflexivity|].
    split; [intros _; reflexivity|].
    split; [intros H; exfalso; exact (hook_not_flat key key H)|].
    intros s o' d' Ho Hd. unfold Hook.fetchRoute, Flat.fetchRoute.
    rewrite Ho, Hd. split; reflexivity.
  - rewrite (flat_settle_no_features data _ Hn). cbn [fst].
    split; [exact Hr|]. split; [reflexivity|].
    split; [intros H; exfalso; exact (hook_not_flat key key (eq_sym H))|].
    split; [intros _; reflexivity|].
    intros s o' d' Ho Hd. unfold Hook.fetchRoute, Flat.fetchRoute.
    rewrite Ho, Hd. split; reflexivity.
Qed.

Lemma fetch_fails_on_missing_key_or_empty_reply_witness :
  routeError
    (session
       (fst (step (hook "key")
               (after (hook "key") [MapClick london; MapClick paris])
               (RouteReply 2 (Resolved (Some []))))))
  = "Failed to fetch route: No routes found."
  ∧ Hook.fetchRoute ""
      (set_destination (Some paris) (set_origin (Some london) initial_state))
    = (set_routeError "API key is missing."
         (set_destination (Some paris)
            (set_origin (Some london) initial_state)), []).
Proof.
  destruct (fetch_fails_on_missing_key_or_empty_reply "key" (hook "key")
              [MapClick london; MapClick paris] 2 driving_car london paris
              (Some []))
    as (_ & _ & He & _ & Hkey).
  - left. reflexivity.
  - vm_compute. reflexivity.
  - reflexivity.
  - split; [exact (He eq_refl)|].
    apply (Hkey _ london paris); reflexivity.
Defined.

(** *** C1 *)

(** C1, as stated, fails: the mode is changed while the request made for
    driving is pending, and its reply fills the route set all the same. *)
Lemma stale_reply_overwrites_routes :
  let c := after (hook "key")
             [MapClick london; MapClick paris; ModeSelect cycling_regular] in
  pending c !! 2%nat = Some (RouteRequest driving_car london paris)
  ∧ mode (session c) = cycling_regular
  ∧ stale c 2
  ∧ route_set (session c) = ([], 0%nat, "", "")
  ∧ route_set
      (session (fst (step (hook "key") c
                       (RouteReply 2 (Resolved (Some [sample_feature]))))))
    = ([Hook.toRoute sample_feature], 0%nat, "12.35 km", "16.45 min")
  ∧ route_set
      (session (fst (step (hook "key") c
                       (RouteReply 2 (Resolved (Some [sample_feature]))))))
    ≠ route_set (session c).
Proof.
  cbv zeta. split; [vm_compute; reflexivity|].
  split; [vm_compute; reflexivity|].
  split.
  { exists driving_car, london, paris.
    split; [vm_compute; reflexivity|]. vm_compute. discriminate. }
  split; [vm_compute; reflexivity|].
  split; [vm_compute; reflexivity|].
  vm_compute. discriminate.
Qed.

(** C1, amended: a route reply that arrives when the mode, origin or
    destination of the session is no longer that of the request never
    changes mode, origin or destination, and leaves the routes, the
    selected index and the displayed distance and duration as they are when
    it is a failure or has no feature; with at least one feature it is
    merged like any other reply: the candidates replace the routes, index 0
    is selected and the distance and duration of candidate 0 are shown. *)
Theorem stale_reply_is_merged_when_successful (key : string)
  (C : Component) (c : Config) (k : nat) (reply : Reply RouteData) :
  C = hook key ∨ C = flat key →
  stale c k →
  let s := session c in
  let s' := session (fst (step C c (RouteReply k reply))) in
  mode s' = mode s ∧ origin s' = origin s ∧ destination s' = destination s
  ∧ match reply with
    | Resolved (Some (f :: fs)) =>
        route_set s'
        = (map Hook.toRoute (f :: fs), 0%nat,
           Route.distance (Hook.toRoute f) +:+ " km",
           Route.duration (Hook.toRoute f) +:+ " min")
    | _ => route_set s' = route_set s
    end.
Proof.
  intros HC (m & o & d & Hk & _) s s'. subst s s'.
  rewrite (step_route_reply key C c k m o d reply HC Hk).
  cbn [fst session].
  destruct (settle_keeps_triple key C reply (session c) HC)
    as (Hm & Ho & Hd & _).
  split; [exact Hm|]. split; [exact Ho|]. split; [exact Hd|].
  destruct (session c) as [].
  destruct HC as [-> | ->]; cbn; unfold_handlers;
    repeat case_match; simplify_eq/=; reflexivity.
Qed.

Lemma stale_reply_is_merged_when_successful_witness :
  let c := after (flat "key")
             [MapClick london; MapClick paris; ModeSelect cycling_regular] in
  mode (session (fst (step (flat "key") c (RouteReply 2 (Rejected "timeout")))))
  = cycling_regular
  ∧ route_set
      (session (fst (step (flat "key") c (RouteReply 2 (Rejected "timeout")))))
    = route_set (session c).
Proof.
  intros c.
  destruct (stale_reply_is_merged_when_successful "key" (flat "key") c 2
              (Rejected "timeout"))
    as (Hm & _ & _ & Hr).
  - right. reflexivity.
  - exists driving_car, london, paris.
    split; [vm_compute; reflexivity|]. vm_compute. discriminate.
  - split; [|exact Hr]. rewrite Hm. vm_compute. reflexivity.
Defined.

(** *** The two components side by side *)

Lemma agree_fields (w : list (string * string)) (s1 s2 : State) :
  agree_upto w s1 s2 →
  ∃ s e1 e2,
    s1 = set_routeError e1 s ∧ s2 = set_routeError e2 s
    ∧ (e1 = e2 ∨ (e1, e2) ∈ w).
Proof.
  destruct s1, s2. unfold agree_upto. cbn. intros [H He].
  injection H as -> -> -> -> -> -> -> -> -> -> -> ->.
  eexists (mkState _ _ _ _ _ _ _ _ _ _ _ _ ""), _, _.
  split; [reflexivity|]. split; [reflexivity|]. exact He.
Qed.

Ltac agree_done :=
  unfold agree_upto, missing_key_wording, no_routes_wording; cbn;
  (split; [reflexivity|]);
  first [ left; reflexivity
        | right; apply list_elem_of_here
        | right; apply list_elem_of_further, list_elem_of_here
        | assumption
        | right; assumption ].

Lemma handle_similar (key : string) (c1 c2 : Config) (e : Event) :
  similar c1 c2 →
  match handle (hook key) c1 e, handle (flat key) c2 e with
  | None, None => True
  | Some (s1, effects1, waiting1), Some (s2, effects2, waiting2) =>
      agree_upto [missing_key_wording; no_routes_wording] s1 s2
      ∧ sends effects1 = sends effects2
      ∧ waiting1 = waiting2
      ∧ deps_changed (stores_location e) (session c1) s1
        = deps_changed (stores_location e) (session c2) s2
  | _, _ => False
  end.
Proof.
  destruct c1 as [s1 pend1], c2 as [s2 pend2]. intros [Hp Ha].
  cbn in Hp. subst pend2. cbn [session] in Ha.
  destruct (agree_fields _ _ _ Ha) as (s & e1 & e2 & -> & -> & He).
  unfold handle, name_settle. cbn [session pending].
  clear Ha.
  destruct e.
  8: { rewrite (resetRoute_record key (hook key) _ (or_introl eq_refl)).
       rewrite (resetRoute_record key (flat key) _ (or_intror eq_refl)).
       destruct s. cbn. split; [agree_done|]. by repeat split. }
  all: destruct s as [so sd son sdn srs si sdist sdur sst ssr sm sl se].
  all: cbn -[deps_changed]; unfold_handlers; cbn -[deps_changed].
  all: repeat case_match; simplify_eq/=; try done.
  all: unfold deps_changed; cbn [mode origin destination].
  all: try (split; [agree_done|]; done).
  exfalso.
  match goal with
  | Hle : (_ <=? _)%nat = true, Hn : _ !! _ = None |- _ =>
      apply Nat.leb_le in Hle; apply lookup_ge_None in Hn; lia
  end.
Qed.

Lemma useEffect_similar (key : string) (changed : bool) (s1 s2 : State) :
  agree_upto [missing_key_wording; no_routes_wording] s1 s2 →
  agree_upto [missing_key_wording; no_routes_wording]
    (fst (useEffect (hook key) changed s1))
    (fst (useEffect (flat key) changed s2))
  ∧ sends (snd (useEffect (hook key) changed s1))
    = sends (snd (useEffect (flat key) changed s2)).
Proof.
  intros Ha.
  destruct (agree_fields _ _ _ Ha) as (s & e1 & e2 & -> & -> & He).
  clear Ha.
  destruct s as [so sd son sdn srs si sdist sdur sst ssr sm sl se].
  unfold useEffect. cbn. unfold_handlers. cbn.
  repeat case_match; simplify_eq/=; (split; [agree_done|]; done).
Qed.

Lemma step_similar (key : string) (c1 c2 : Config) (e : Event) :
  similar c1 c2 →
  similar (fst (step (hook key) c1 e)) (fst (step (flat key) c2 e))
  ∧ sends (snd (step (hook key) c1 e)) = sends (snd (step (flat key) c2 e)).
Proof.
  intros H. pose proof (handle_similar key c1 c2 e H) as Hh.
  rewrite !step_unfold.
  destruct (handle (hook key) c1 e) as [[[s1 effects1] waiting1]|],
    (handle (flat key) c2 e) as [[[s2 effects2] waiting2]|];
    try done.
  destruct Hh as (Ha & Hs & -> & ->).
  destruct (useEffect_similar key
              (deps_changed (stores_location e) (session c2) s2) s1 s2 Ha)
    as [Ha' Hs'].
  unfold similar. cbn. rewrite !sends_app, Hs, Hs'.
  split; [split; [reflexivity|exact Ha']|reflexivity].
Qed.

Lemma run_similar (key : string) (events : list Event) (c1 c2 : Config) :
  similar c1 c2 →
  similar (fst (run (hook key) c1 events)) (fst (run (flat key) c2 events))
  ∧ sends (snd (run (hook key) c1 events))
    = sends (snd (run (flat key) c2 events)).
Proof.
  revert c1 c2. induction events as [|e events IH]; intros c1 c2 H.
  - by split.
  - cbn. destruct (step_similar key c1 c2 e H) as [H1 Hs1].
    destruct (step (hook key) c1 e) as [c1' effects1].
    destruct (step (flat key) c2 e) as [c2' effects2].
    cbn in H1, Hs1. destruct (IH c1' c2' H1) as [H2 Hs2].
    destruct (run (hook key) c1' events) as [c1'' effects1'].
    destruct (run (flat key) c2' events) as [c2'' effects2'].
    cbn in *. rewrite !sends_app, Hs1, Hs2. split; [exact H2|reflexivity].
Qed.

(** *** C10 *)

(** C10, as stated, fails: on a reply without features the two components
    leave different error messages, and neither is the missing-key one. *)
Lemma components_word_empty_reply_differently :
  let events := [MapClick london; MapClick paris;
                 RouteReply 2 (Resolved (Some []))] in
  routeError (session (after (hook "key") events))
  = "Failed to fetch route: No routes found."
  ∧ routeError (session (after (flat "key") events))
    = "Failed to fetch route: No routes found in the API response."
  ∧ ¬ agree_upto [missing_key_wording]
        (session (after (hook "key") events))
        (session (after (flat "key") events)).
Proof.
  cbv zeta. split; [vm_compute; reflexivity|].
  split; [vm_compute; reflexivity|].
  intros [_ [H | H]].
  - vm_compute in H. discriminate.
  - vm_compute in H. apply list_elem_of_singleton in H. discriminate.
Qed.

(** C10, amended: on the same events and the same replies the two
    components convert a feature to the same route, send the same
    requests, have the same requests pending and end in the same session,
    up to the wording of two error messages: the missing-key one and the
    one for a reply without features. *)
Theorem components_agree_upto_wordings (key : string)
  (events : list Event) :
  pending (after (hook key) events) = pending (after (flat key) events)
  ∧ agree_upto [missing_key_wording; no_routes_wording]
      (session (after (hook key) events))
      (session (after (flat key) events))
  ∧ sends (snd (run (hook key) initial_config events))
    = sends (snd (run (flat key) initial_config events))
  ∧ (∀ feature, Flat.toRoute feature = Hook.toRoute feature).
Proof.
  assert (H0 : similar initial_config initial_config).
  { split; [reflexivity|]. split; [reflexivity|]. by left. }
  destruct (run_similar key events _ _ H0) as [[Hp Ha] Hs].
  split; [exact Hp|]. split; [exact Ha|]. split; [exact Hs|].
  intros feature. reflexivity.
Qed.

(** ** Further properties

    *** Printing with two decimals *)

Lemma substring_split (j : nat) (m : string) :
  (j ≤ String.length m)%nat →
  substring 0 j m +:+ substring j (String.length m - j) m = m.
Proof.
  revert m. induction j as [|j IH]; intros m Hj.
  - rewrite Nat.sub_0_r, substring_all. by destruct m.
  - destruct m as [|c m]; [cbn in Hj; lia|].
    change (String c (substring 0 j m
                      +:+ substring j (String.length m - j) m)
            = String c m).
    rewrite IH; [reflexivity|]. cbn in Hj. lia.
Qed.

Lemma length_substring (j n : nat) (m : string) :
  (j + n ≤ String.length m)%nat →
  String.length (substring j n m) = n.
Proof.
  revert j n. induction m as [|c m IH]; intros j n H; cbn in H.
  - assert (j = 0%nat ∧ n = 0%nat) as [-> ->] by lia. reflexivity.
  - destruct j as [|j]; cbn.
    + destruct n as [|n]; cbn; [reflexivity|]. rewrite IH by lia. reflexivity.
    + apply IH. lia.
Qed.

Lemma length_zeros_append (j : nat) (s : string) :
  String.length (Num.zeros j +:+ s) = (j + String.length s)%nat.
Proof.
  induction j as [|j IH]; [reflexivity|].
  change (S (String.length (Num.zeros j +:+ s)) = S (j + String.length s)).
  by rewrite IH.
Qed.

Lemma read_zeros_append (j : nat) (u : Decimal.uint) :
  NilEmpty.uint_of_string (Num.zeros j +:+ NilEmpty.string_of_uint u)
  = Some (Nat.iter j Decimal.D0 u).
Proof.
  induction j as [|j IH].
  - apply NilEmpty.usu.
  - change (uint_of_char "0"
              (NilEmpty.uint_of_string
                 (Num.zeros j +:+ NilEmpty.string_of_uint u))
            = Some (Decimal.D0 (Nat.iter j Decimal.D0 u))).
    rewrite IH. reflexivity.
Qed.

Lemma of_uint_zeros (j : nat) (u : Decimal.uint) :
  Z.of_uint (Nat.iter j Decimal.D0 u) = Z.of_uint u.
Proof. induction j as [|j IH]; cbn; [reflexivity|]. exact IH. Qed.

Lemma fixed2_two_decimals (n : Z) :
  0 <= n → two_decimals (Num.fixed2 n) n.
Proof.
  intros Hn. unfold Num.fixed2, Num.digits.
  set (u := N.to_uint (Z.to_N n)).
  assert (Hu : NilZero.string_of_uint u = NilEmpty.string_of_uint u).
  { subst u. destruct (Z.to_N n) as [|p]; [reflexivity|].
    cbn. pose proof (DecimalPos.Unsigned.to_uint_nonnil p) as Hp.
    destruct (Pos.to_uint p); [by destruct Hp|reflexivity..]. }
  rewrite Hu.
  set (ds := NilEmpty.string_of_uint u).
  set (j := (3 - String.length ds)%nat).
  set (m := Num.zeros j +:+ ds).
  assert (Hk : (3 ≤ String.length m)%nat).
  { subst m j. rewrite length_zeros_append. lia. }
  exists (substring 0 (String.length m - 2) m),
    (substring (String.length m - 2) 2 m), (Nat.iter j Decimal.D0 u).
  split; [reflexivity|].
  split; [apply length_substring; lia|].
  split.
  - pose proof (substring_split (String.length m - 2) m) as Hs.
    replace (String.length m - (String.length m - 2))%nat with 2%nat in Hs
      by lia.
    rewrite Hs by lia. apply read_zeros_append.
  - rewrite of_uint_zeros. subst u. unfold Z.of_uint.
    change (Pos.of_uint (N.to_uint (Z.to_N n)))
      with (N.of_uint (N.to_uint (Z.to_N n))).
    rewrite DecimalN.Unsigned.of_to. lia.
Qed.

(** X1: in the range where toFixed prints fixed notation, [x.toFixed(2)] is
    the sign followed by a numeral with exactly two digits after the
    point; its digits make the integer number of hundredths nearest to the
    magnitude of [x]. *)
Theorem toFixed2_prints_two_decimals (x : Num.number) :
  Num.fixed_range x = true →
  ∃ text,
    Num.toFixed2 x = Num.sign_prefix x +:+ text
    ∧ two_decimals text (Num.hundredths x)
    ∧ (Qabs (inject_Z (Num.hundredths x) / 100 - Num.magnitude x)
       <= 1 # 200)%Q.
Proof.
  intros Hr. destruct (toFixed2_rounds x Hr) as [Ht Hq].
  exists (Num.fixed2 (Num.hundredths x)).
  split; [exact Ht|]. split; [|exact Hq].
  apply fixed2_two_decimals.
  destruct x; cbn; try lia. apply nearest_hundredths_nonneg.
Qed.

Lemma toFixed2_prints_two_decimals_witness :
  ∃ text,
    Num.toFixed2 (Num.div (Num.of_Z 1005) (Num.of_Z 1000)) = "" +:+ text
    ∧ two_decimals text 100.
Proof.
  destruct (toFixed2_prints_two_decimals
              (Num.div (Num.of_Z 1005) (Num.of_Z 1000)))
    as (text & Ht & Hd & _).
  - vm_compute. reflexivity.
  - exists text. split; [exact Ht|exact Hd].
Defined.
Ltac coherent_done :=
  repeat match goal with
         | H : (_ <? _)%nat = true |- _ => apply Nat.ltb_lt in H
         | H : (_ <=? _)%nat = true |- _ => apply Nat.leb_le in H
         end;
  unfold coherent, shown_matches_selection, consistent, selection_valid in *;
  cbn -[route_requests] in *;
  rewrite ?app_nil_r, ?route_requests_app, ?route_requests_one in *;
  repeat match goal with
         | H : ?l !! ?k = Some ?p |- _ =>
             match type of l with
             | list Pending =>
                 pose proof (route_requests_delete l k p H); clear H
             end
         end;
  cbn -[route_requests] in *;
  repeat match goal with
         | H : _ ∧ _ |- _ => destruct H
         end;
  repeat case_match; simplify_eq/=; destruct_and?; simplify_eq/=;
  repeat split; intros; simplify_eq/=; try done; try lia;
  try (exfalso; lia);
  try (match goal with
       | H : ?x = ?x → _ |- _ => destruct (H eq_refl); simplify_eq/=; done
       end);
  try (match goal with
       | H : _ !! _ = None |- _ => apply lookup_ge_None in H; cbn in H; lia
       end);
  auto.

Lemma useEffect_coherent (key : string) (C : Component) (changed : bool)
  (s : State) (waiting : list Pending) :
  C = hook key ∨ C = flat key →
  consistent {| session := s; pending := waiting |} →
  coherent key s →
  coherent key (fst (useEffect C changed s)).
Proof.
  intros HC Hc H. unfold useEffect.
  destruct s as [so sd son sdn srs si sdist sdur sst ssr sm sl se].
  cbn [origin destination isLoadingRoute].
  destruct so, sd, sl, changed; cbn [fst]; try exact H.
  destruct HC as [-> | ->]; cbn; unfold_handlers; cbn;
    destruct key; coherent_done.
Qed.

Lemma handle_coherent (key : string) (C : Component) (c : Config)
  (e : Event) (s1 : State) (effects1 : list Effect) (waiting : list Pending) :
  C = hook key ∨ C = flat key →
  consistent c →
  coherent key (session c) →
  handle C c e = Some (s1, effects1, waiting) →
  coherent key s1.
Proof.
  destruct c as [s pend]. intros HC Hc H He.
  unfold handle, name_settle in He. destruct e;
    try rewrite (resetRoute_record key C _ HC) in He;
    destruct s as [so sd son sdn srs si sdist sdur sst ssr sm sl se];
    destruct HC as [-> | ->];
    cbn in He; unfold_handlers; repeat case_match; simplify_eq/=.
  all: coherent_done.
Qed.

Lemma step_coherent (key : string) (C : Component) (c : Config)
  (e : Event) :
  C = hook key ∨ C = flat key →
  consistent c →
  coherent key (session c) →
  coherent key (session (fst (step C c e))).
Proof.
  intros HC Hc H. rewrite step_unfold.
  destruct (handle C c e) as [[[s1 effects1] waiting]|] eqn:He; [|exact H].
  cbn [fst session].
  apply (useEffect_coherent key C _ s1 (waiting ++ sends effects1) HC).
  - by eapply handle_consistent.
  - by eapply handle_coherent.
Qed.

Lemma run_coherent (key : string) (C : Component) (events : list Event)
  (c : Config) :
  C = hook key ∨ C = flat key →
  consistent c →
  coherent key (session c) →
  coherent key (session (fst (run C c events))).
Proof.
  intros HC. revert c. induction events as [|e events IH]; intros c Hc H.
  - exact H.
  - cbn. pose proof (step_consistent key C c e HC Hc) as Hc1.
    pose proof (step_coherent key C c e HC Hc H) as H1.
    destruct (step C c e) as [c1 effects1]. cbn in Hc1, H1.
    specialize (IH c1 Hc1 H1).
    destruct (run C c1 events) as [c2 effects2]. exact IH.
Qed.

Lemma after_coherent (key : string) (C : Component) (events : list Event) :
  C = hook key ∨ C = flat key →
  coherent key (session (after C events)).
Proof.
  intros HC. apply (run_coherent key C events _ HC).
  - exact initial_consistent.
  - unfold coherent, shown_matches_selection. cbn. by repeat split.
Qed.


(** *** What every reachable session satisfies *)

(** X2: in every state a component reaches, the distance and duration
    shown are those of the selected route, with their units, and both are
    empty when there is no route. *)
Theorem shown_distance_is_selected_route (key : string) (C : Component)
  (events : list Event) :
  C = hook key ∨ C = flat key →
  match routes (session (after C events))
          !! selectedRouteIndex (session (after C events)) with
  | Some route =>
      distance (session (after C events)) = Route.distance route +:+ " km"
      ∧ duration (session (after C events))
        = Route.duration route +:+ " min"
  | None =>
      routes (session (after C events)) = []
      ∧ distance (session (after C events)) = ""
      ∧ duration (session (after C events)) = ""
  end.
Proof.
  intros HC.
  destruct (after_coherent key C events HC) as (Hs & _).
  destruct (after_consistent key C events HC) as (_ & _ & Hv).
  unfold shown_matches_selection in Hs. unfold selection_valid in Hv.
  destruct (routes (session (after C events))
              !! selectedRouteIndex (session (after C events))) eqn:E;
    [exact Hs|].
  split; [|exact Hs].
  destruct (routes (session (after C events))) eqn:Er; [reflexivity|].
  apply lookup_ge_None in E. specialize (Hv ltac:(done)). lia.
Qed.

Lemma shown_distance_is_selected_route_witness :
  distance (session (after (flat "key") sample_events)) = "4.80 km"
  ∧ duration (session (after (flat "key") sample_events)) = "10.83 min".
Proof.
  pose proof (shown_distance_is_selected_route "key" (flat "key")
                sample_events (or_intror eq_refl)) as H.
  replace (routes (session (after (flat "key") sample_events))
             !! selectedRouteIndex (session (after (flat "key") sample_events)))
    with (Some (Hook.toRoute shorter_feature)) in H
    by (vm_compute; reflexivity).
  destruct H as [Hd Ht]. rewrite Hd, Ht. split; vm_compute; reflexivity.
Defined.

(** X3: the loading flag is set exactly while one route request is
    pending, and never more than one is; while it is set the route list,
    the distance, the duration and the error message are all empty. *)
Theorem loading_means_one_request_pending (key : string) (C : Component)
  (events : list Event) :
  C = hook key ∨ C = flat key →
  route_requests (pending (after C events))
  = (if isLoadingRoute (session (after C events)) then 1 else 0)%nat
  ∧ (isLoadingRoute (session (after C events)) = true →
     routes (session (after C events)) = []
     ∧ distance (session (after C events)) = ""
     ∧ duration (session (after C events)) = ""
     ∧ routeError (session (after C events)) = "").
Proof.
  intros HC.
  destruct (after_coherent key C events HC) as (Hs & He & _).
  destruct (after_consistent key C events HC) as (Hn & Hr & _).
  split; [exact Hn|]. intros Hl.
  specialize (Hr Hl). specialize (He Hl).
  unfold shown_matches_selection in Hs. rewrite Hr in Hs. cbn in Hs.
  destruct Hs as [Hd Ht]. by repeat split.
Qed.

Lemma loading_means_one_request_pending_witness :
  route_requests
    (pending (after (hook "key") [MapClick london; MapClick paris]))
  = 1%nat
  ∧ routes (session (after (hook "key") [MapClick london; MapClick paris]))
    = [].
Proof.
  destruct (loading_means_one_request_pending "key" (hook "key")
              [MapClick london; MapClick paris] (or_introl eq_refl))
    as [Hn Hl].
  split.
  - rewrite Hn. vm_compute. reflexivity.
  - apply Hl. vm_compute. reflexivity.
Defined.

(** X4: routes and an error message are never there together: whenever
    the route list is not empty the error message is empty. *)
Theorem routes_and_error_exclude (key : string) (C : Component)
  (events : list Event) :
  C = hook key ∨ C = flat key →
  routes (session (after C events)) ≠ [] →
  routeError (session (after C events)) = "".
Proof.
  intros HC. by destruct (after_coherent key C events HC) as (_ & _ & H & _).
Qed.

Lemma routes_and_error_exclude_witness :
  routeError
    (session (after (hook "key")
                [MapClick london; MapClick paris;
                 RouteReply 2 (Rejected "Network Error"); GetRouteClick;
                 RouteReply 2 (Resolved (Some [sample_feature]))]))
  = "".
Proof.
  apply (routes_and_error_exclude "key" (hook "key")).
  - left. reflexivity.
  - vm_compute. discriminate.
Defined.

(** X5: the message of the first guard of [fetchRoute] is never shown:
    the button is disabled and the effect does nothing unless both points
    are set, so no event makes [fetchRoute] run without them. *)
Theorem both_points_message_never_shown (key : string) (C : Component)
  (events : list Event) :
  C = hook key ∨ C = flat key →
  routeError (session (after C events))
  ≠ "Please set both origin and destination.".
Proof.
  intros HC.
  by destruct (after_coherent key C events HC) as (_ & _ & _ & H & _).
Qed.

Lemma both_points_message_never_shown_witness :
  routeError (session (after (flat "") [MapClick london; GetRouteClick]))
  ≠ "Please set both origin and destination.".
Proof.
  apply (both_points_message_never_shown "" (flat "")).
  right. reflexivity.
Defined.

(** X6: the destination is never set while the origin is absent, so the
    location given to [MapCenterControl] is the origin whenever a point is
    set. *)
Theorem map_centers_on_origin (key : string) (C : Component)
  (events : list Event) :
  C = hook key ∨ C = flat key →
  (origin (session (after C events)) = None →
   destination (session (after C events)) = None)
  ∧ center_location (session (after C events))
    = origin (session (after C events)).
Proof.
  intros HC.
  destruct (after_coherent key C events HC) as (_ & _ & _ & _ & _ & H).
  split; [exact H|]. unfold center_location.
  destruct (origin (session (after C events))); [reflexivity|]. by apply H.
Qed.

Lemma map_centers_on_origin_witness :
  center_location
    (session (after (hook "key")
                [LocateClick (Position paris); MapClick london]))
  = Some paris.
Proof.
  destruct (map_centers_on_origin "key" (hook "key")
              [LocateClick (Position paris); MapClick london]
              (or_introl eq_refl)) as [_ H].
  rewrite H. vm_compute. reflexivity.
Defined.

(** *** Without a credential *)

Lemma step_sent_pending (C : Component) (c : Config) (e : Event) :
  (route_requests (sends (snd (step C c e)))
   ≤ route_requests (pending (fst (step C c e))))%nat.
Proof.
  rewrite step_unfold.
  destruct (handle C c e) as [[[s1 effects1] waiting]|];
    cbn [fst snd pending sends]; [|unfold route_requests; cbn; lia].
  rewrite sends_app, !route_requests_app. lia.
Qed.

Lemma run_sends_nothing (C : Component) (events : list Event) (c : Config) :
  C = hook "" ∨ C = flat "" →
  consistent c →
  coherent "" (session c) →
  route_requests (sends (snd (run C c events))) = 0%nat.
Proof.
  intros HC. revert c. induction events as [|e events IH]; intros c Hc H.
  - reflexivity.
  - cbn. pose proof (step_consistent "" C c e HC Hc) as Hc1.
    pose proof (step_coherent "" C c e HC Hc H) as H1.
    pose proof (step_sent_pending C c e) as Hle.
    destruct (step C c e) as [c1 effects1]. cbn [fst snd] in Hc1, H1, Hle.
    specialize (IH c1 Hc1 H1).
    destruct (run C c1 events) as [c2 effects2]. cbn [fst snd] in IH |- *.
    rewrite sends_app, route_requests_app, IH.
    destruct Hc1 as (Hn & _). destruct H1 as (_ & _ & _ & _ & Hk & _).
    destruct (Hk eq_refl) as [_ Hl]. rewrite Hl in Hn. lia.
Qed.

(** X7: with an empty credential no event sequence makes the component
    send a request to the directions service; the loading flag is never
    set and the route list stays empty. *)
Theorem no_route_request_without_key (C : Component)
  (events : list Event) :
  C = hook "" ∨ C = flat "" →
  route_requests (sends (snd (run C initial_config events))) = 0%nat
  ∧ route_requests (pending (after C events)) = 0%nat
  ∧ isLoadingRoute (session (after C events)) = false
  ∧ routes (session (after C events)) = [].
Proof.
  intros HC.
  destruct (after_coherent "" C events HC) as (_ & _ & _ & _ & Hk & _).
  destruct (after_consistent "" C events HC) as (Hn & _).
  destruct (Hk eq_refl) as [Hr Hl]. rewrite Hl in Hn.
  split; [|by repeat split].
  apply run_sends_nothing; [exact HC|exact initial_consistent|].
  unfold coherent, shown_matches_selection. cbn. by repeat split.
Qed.

Lemma no_route_request_without_key_witness :
  routes
    (session (after (hook "")
                [MapClick london; MapClick paris; ModeSelect foot_walking;
                 GetRouteClick]))
  = [].
Proof.
  apply (no_route_request_without_key (hook "")). left. reflexivity.
Defined.

(** *** Starting a fetch *)

Lemma fetchRoute_starts (key : string) (C : Component) (s : State)
  (o d : LatLng.t) :
  C = hook key ∨ C = flat key →
  key ≠ "" →
  origin s = Some o → destination s = Some d →
  c_fetchRoute C s = (loading_state s, [Send (RouteRequest (mode s) o d)]).
Proof.
  intros HC Hk Ho Hd. destruct key as [|a key]; [done|].
  destruct s as [so sd son sdn srs si sdist sdur sst ssr sm sl se].
  cbn in Ho, Hd. subst so sd.
  destruct HC as [-> | ->]; reflexivity.
Qed.

Lemma useEffect_fetches (key : string) (C : Component) (s : State)
  (o d : LatLng.t) :
  C = hook key ∨ C = flat key →
  key ≠ "" →
  origin s = Some o → destination s = Some d →
  isLoadingRoute s = false →
  useEffect C true s
  = (loading_state s, [Send (RouteRequest (mode s) o d)]).
Proof.
  intros HC Hk Ho Hd Hl. unfold useEffect. rewrite Ho, Hd, Hl.
  by apply (fetchRoute_starts key).
Qed.

Lemma useEffect_skips (C : Component) (changed : bool) (s : State) :
  changed = false ∨ origin s = None ∨ destination s = None
  ∨ isLoadingRoute s = true →
  useEffect C changed s = (s, []).
Proof.
  unfold useEffect. intros [-> | [-> | [H | ->]]].
  - by destruct (origin s), (destination s), (isLoadingRoute s).
  - reflexivity.
  - rewrite H. by destruct (origin s).
  - by destruct (origin s), (destination s).
Qed.

Lemma LocationMarker_click_destination (key : string) (C : Component)
  (s : State) (p o : LatLng.t) :
  C = hook key ∨ C = flat key →
  origin s = Some o →
  c_LocationMarker_click C p s
  = (set_destination (Some p) s, [Send (NameRequest p DestinationSlot false)]).
Proof.
  intros HC Ho.
  destruct HC as [-> | ->]; cbn;
    unfold Hook.LocationMarker_click, Flat.LocationMarker_click;
    by rewrite Ho.
Qed.

(** X8: a click on the map when the origin is set makes the clicked point
    the destination (replacing one already there) and asks for its name;
    if no route is loading and the credential is there, the effect at once
    posts a route request for the session's mode, the origin and the
    clicked point and empties the route set; if a route is loading no
    route request is sent for the new destination. *)
Theorem click_with_origin_sets_destination (key : string) (C : Component)
  (c : Config) (p o : LatLng.t) :
  C = hook key ∨ C = flat key →
  key ≠ "" →
  origin (session c) = Some o →
  step C c (MapClick p)
  = if isLoadingRoute (session c)
    then ({| session := set_destination (Some p) (session c);
             pending := pending c ++ [NameRequest p DestinationSlot false] |},
          [Send (NameRequest p DestinationSlot false)])
    else ({| session :=
               loading_state (set_destination (Some p) (session c));
             pending :=
               pending c
               ++ [NameRequest p DestinationSlot false;
                   RouteRequest (mode (session c)) o p] |},
          [Send (NameRequest p DestinationSlot false);
           Send (RouteRequest (mode (session c)) o p)]).
Proof.
  intros HC Hk Ho. rewrite step_unfold. unfold handle.
  rewrite (LocationMarker_click_destination key C _ p o HC Ho).
  cbn [stores_location sends]. unfold deps_changed. cbn [orb].
  destruct (isLoadingRoute (session c)) eqn:Hl.
  - rewrite useEffect_skips by (right; right; right; exact Hl).
    cbn [fst snd sends]. by rewrite !app_nil_r.
  - rewrite (useEffect_fetches key C _ o p HC Hk) by (exact Ho || done).
    cbn [fst snd sends mode set_destination]. by rewrite <- app_assoc.
Qed.

Lemma click_with_origin_sets_destination_witness :
  snd (step (hook "key") (after (hook "key") [MapClick london])
         (MapClick paris))
  = [Send (NameRequest paris DestinationSlot false);
     Send (RouteRequest driving_car london paris)].
Proof.
  rewrite (click_with_origin_sets_destination "key" (hook "key")
             (after (hook "key") [MapClick london]) paris london).
  - vm_compute. reflexivity.
  - left. reflexivity.
  - discriminate.
  - vm_compute. reflexivity.
Defined.

(** X9: with both points set and the credential there, choosing a travel
    mode posts a route request with the chosen mode exactly when it
    differs from the current one and no route is loading; choosing the
    current mode does nothing, and while a route is loading the mode is
    changed but nothing is sent, so the routes that arrive are those of
    the earlier mode. *)
Theorem mode_change_refetches (key : string) (C : Component) (c : Config)
  (value : TravelMode) (o d : LatLng.t) :
  C = hook key ∨ C = flat key →
  key ≠ "" →
  origin (session c) = Some o →
  destination (session c) = Some d →
  step C c (ModeSelect value)
  = if isLoadingRoute (session c)
    then ({| session := set_mode value (session c);
             pending := pending c |}, [])
    else if decide (value = mode (session c))
    then (c, [])
    else ({| session := loading_state (set_mode value (session c));
             pending := pending c ++ [RouteRequest value o d] |},
          [Send (RouteRequest value o d)]).
Proof.
  intros HC Hk Ho Hd. rewrite step_unfold. unfold handle.
  assert (Hm : c_setMode C value (session c) = set_mode value (session c)).
  { by destruct HC as [-> | ->]. }
  rewrite Hm. cbn [stores_location sends]. rewrite app_nil_r.
  destruct (isLoadingRoute (session c)) eqn:Hl.
  - rewrite useEffect_skips by (right; right; right; exact Hl).
    cbn [fst snd sends]. by rewrite app_nil_r.
  - destruct (decide (value = mode (session c))) as [-> | Hne].
    + rewrite deps_unchanged by reflexivity.
      rewrite useEffect_skips by (by left).
      cbn [fst snd sends]. rewrite app_nil_r.
      destruct c as [s pend]. by destruct s.
    + assert (Hch : deps_changed false (session c)
                      (set_mode value (session c)) = true).
      { unfold deps_changed. cbn.
        rewrite (bool_decide_true (mode (session c) ≠ value)) by done.
        reflexivity. }
      rewrite Hch.
      rewrite (useEffect_fetches key C _ o d HC Hk) by done.
      reflexivity.
Qed.

Lemma mode_change_refetches_witness :
  snd (step (flat "key")
         (after (flat "key")
            [MapClick london; MapClick paris;
             RouteReply 2 (Resolved (Some [sample_feature]))])
         (ModeSelect foot_walking))
  = [Send (RouteRequest foot_walking london paris)].
Proof.
  rewrite (mode_change_refetches "key" (flat "key") _ foot_walking
             london paris).
  - vm_compute. reflexivity.
  - right. reflexivity.
  - discriminate.
  - vm_compute. reflexivity.
  - vm_compute. reflexivity.
Defined.

(** X10: the "Get Route" button, enabled when both points are set and no
    route is loading, posts a route request for the session's mode, origin
    and destination and clears routes, distance, duration and error: after
    a failed fetch it is the retry. *)
Theorem get_route_click_posts_request (key : string) (C : Component)
  (c : Config) (o d : LatLng.t) :
  C = hook key ∨ C = flat key →
  key ≠ "" →
  origin (session c) = Some o →
  destination (session c) = Some d →
  isLoadingRoute (session c) = false →
  step C c GetRouteClick
  = ({| session := loading_state (session c);
        pending := pending c ++ [RouteRequest (mode (session c)) o d] |},
     [Send (RouteRequest (mode (session c)) o d)])
  ∧ routeError (loading_state (session c)) = ""
  ∧ routes (loading_state (session c)) = []
  ∧ isLoadingRoute (loading_state (session c)) = true.
Proof.
  intros HC Hk Ho Hd Hl. split; [|by repeat split].
  rewrite step_unfold. unfold handle. rewrite Ho, Hd, Hl.
  rewrite (fetchRoute_starts key C _ o d HC Hk Ho Hd).
  cbn [stores_location]. rewrite deps_unchanged by reflexivity.
  rewrite useEffect_skips by (by left).
  cbn [fst snd sends]. by rewrite !app_nil_r.
Qed.

Lemma get_route_click_posts_request_witness :
  snd (step (hook "key")
         (after (hook "key")
            [MapClick london; MapClick paris;
             RouteReply 2 (Rejected "Network Error")])
         GetRouteClick)
  = [Send (RouteRequest driving_car london paris)].
Proof.
  destruct (get_route_click_posts_request "key" (hook "key")
              (after (hook "key")
                 [MapClick london; MapClick paris;
                  RouteReply 2 (Rejected "Network Error")])
              london paris) as [H _].
  - left. reflexivity.
  - discriminate.
  - vm_compute. reflexivity.
  - vm_compute. reflexivity.
  - vm_compute. reflexivity.
  - rewrite H. vm_compute. reflexivity.
Defined.

(** *** Searching an address *)

(** X11: a query of three characters or more becomes the search term and
    is sent to the geocoding service, once; the results shown before stay
    until a reply comes; nothing else of the session changes and no route
    request is sent. *)
Theorem search_query_is_sent (key : string) (C : Component) (c : Config)
  (value : string) :
  C = hook key ∨ C = flat key →
  (3 ≤ String.length value)%nat →
  step C c (SearchChange value)
  = ({| session := set_searchTerm value (session c);
        pending := pending c ++ [SearchRequest value] |},
     [Send (SearchRequest value)])
  ∧ searchResults (set_searchTerm value (session c))
    = searchResults (session c).
Proof.
  intros HC Hlen. split; [|reflexivity].
  assert (Hlt : (String.length value <? 3)%nat = false)
    by (apply Nat.ltb_ge; lia).
  assert (Hh : c_handleSearch C value (session c)
               = (set_searchTerm value (session c),
                  [Send (SearchRequest value)])).
  { destruct HC as [-> | ->]; cbn;
      unfold Hook.handleSearch, Flat.handleSearch; by rewrite Hlt. }
  rewrite step_unfold. unfold handle. rewrite Hh.
  cbn [stores_location]. rewrite deps_unchanged by reflexivity.
  rewrite useEffect_skips by (by left).
  cbn [fst snd sends]. by rewrite !app_nil_r.
Qed.

Lemma search_query_is_sent_witness :
  pending (fst (step (hook "key") initial_config (SearchChange "lon")))
  = [SearchRequest "lon"].
Proof.
  destruct (search_query_is_sent "key" (hook "key") initial_config "lon")
    as [H _].
  - left. reflexivity.
  - cbn. lia.
  - rewrite H. reflexivity.
Defined.

(** X12: when a search request settles with data, the data become the
    search results whatever the request asked for and whatever the search
    term is by then: a reply to an earlier query replaces the results of a
    later one, and a reply that comes after the term was shortened below
    three characters fills the list again.  The term and the rest of the
    session are left as they are. *)
Theorem search_reply_replaces_results (key : string) (C : Component)
  (c : Config) (k : nat) (q : string) (data : SearchData) :
  C = hook key ∨ C = flat key →
  pending c !! k = Some (SearchRequest q) →
  step C c (SearchReply k (Resolved data))
  = ({| session := set_searchResults data (session c);
        pending := delete k (pending c) |}, []).
Proof.
  intros HC Hk.
  assert (Hh : c_handleSearch_settle C (Resolved data) (session c)
               = (set_searchResults data (session c), [])).
  { by destruct HC as [-> | ->]. }
  rewrite step_unfold. unfold handle. rewrite Hk, Hh.
  cbn [stores_location]. rewrite deps_unchanged by reflexivity.
  rewrite useEffect_skips by (by left).
  cbn [fst snd sends]. by rewrite !app_nil_r.
Qed.

Lemma search_reply_replaces_results_witness :
  let c := after (flat "key") [SearchChange "lon"; SearchChange "lo"] in
  searchTerm (session c) = "lo"
  ∧ searchResults (session c) = []
  ∧ searchResults
      (session (fst (step (flat "key") c
                       (SearchReply 0 (Resolved [sample_result])))))
    = [sample_result].
Proof.
  intros c. split; [vm_compute; reflexivity|].
  split; [vm_compute; reflexivity|].
  rewrite (search_reply_replaces_results "key" (flat "key") c 0 "lon").
  - reflexivity.
  - right. reflexivity.
  - vm_compute. reflexivity.
Defined.

(** *** Names of the points *)

(** X13: when a name request settles, the name of its slot becomes the
    [display_name] of the reply, or "Unknown Location" when the request
    failed or the reply has no or an empty [display_name]: it is never
    empty.  A request made by selecting a search result then empties the
    search results and the search term.  Nothing else changes, whatever the
    points of the session are by then, and nothing is sent. *)
Theorem name_reply_sets_name (key : string) (C : Component) (c : Config)
  (k : nat) (p : LatLng.t) (slot : NameSlot) (from_search : bool)
  (reply : Reply NameData) :
  C = hook key ∨ C = flat key →
  pending c !! k = Some (NameRequest p slot from_search) →
  let name := fst (fetchLocationName_settle reply) in
  let named :=
    match slot with
    | OriginSlot => set_originName name (session c)
    | DestinationSlot => set_destinationName name (session c)
    end in
  step C c (NameReply k reply)
  = ({| session :=
          if from_search
          then set_searchTerm "" (set_searchResults [] named)
          else named;
        pending := delete k (pending c) |},
     snd (fetchLocationName_settle reply))
  ∧ name ≠ ""
  ∧ (∀ n, reply = Resolved (Some n) → n ≠ "" → name = n)
  ∧ (name = "Unknown Location"
     ∨ ∃ n, reply = Resolved (Some n) ∧ name = n)
  ∧ sends (snd (fetchLocationName_settle reply)) = [].
Proof.
  intros HC Hk name named. split.
  - assert (Hh : name_settle C slot from_search reply (session c)
                 = (if from_search
                    then set_searchTerm "" (set_searchResults [] named)
                    else named,
                    snd (fetchLocationName_settle reply))).
    { subst name named. unfold name_settle.
      destruct (fetchLocationName_settle reply) as [n log]. cbn [fst snd].
      destruct (session c) as [so sd son sdn srs si sdist sdur sst ssr sm sl se].
      destruct HC as [-> | ->], slot, from_search; reflexivity. }
    assert (Hs : sends (snd (fetchLocationName_settle reply)) = []).
    { by destruct reply as [m|[[|a n]|]]. }
    rewrite step_unfold. unfold handle. rewrite Hk, Hh.
    cbn [stores_location]. rewrite deps_unchanged.
    + rewrite useEffect_skips by (by left).
      cbn [fst snd sends]. by rewrite Hs, !app_nil_r.
    + subst named. by destruct slot, from_search.
    + subst named. by destruct slot, from_search.
    + subst named. by destruct slot, from_search.
  - subst name. destruct reply as [m|[[|a n]|]]; cbn.
    all: split; [done|].
    all: split; [intros n' [= <-] Hn; done|].
    all: split; [|reflexivity].
    all: try (left; reflexivity).
    right. by eexists.
Qed.

Lemma name_reply_sets_name_witness :
  let c := after (hook "key") [MapClick london; ResetClick] in
  origin (session c) = None
  ∧ originName
      (session (fst (step (hook "key") c
                       (NameReply 0 (Resolved (Some "London"))))))
    = "London".
Proof.
  intros c. split; [vm_compute; reflexivity|].
  destruct (name_reply_sets_name "key" (hook "key") c 0 london OriginSlot
              false (Resolved (Some "London"))) as [H _].
  - left. reflexivity.
  - vm_compute. reflexivity.
  - rewrite H. reflexivity.
Defined.

(** *** The browser's location *)

Lemma fetchRoute_keeps_points (key : string) (C : Component) (s : State) :
  C = hook key ∨ C = flat key →
  origin (fst (c_fetchRoute C s)) = origin s
  ∧ destination (fst (c_fetchRoute C s)) = destination s
  ∧ mode (fst (c_fetchRoute C s)) = mode s.
Proof.
  intros HC.
  destruct s as [so sd son sdn srs si sdist sdur sst ssr sm sl se].
  destruct HC as [-> | ->]; cbn; unfold_handlers; cbn;
    repeat case_match; by repeat split.
Qed.

Lemma useEffect_keeps_points (key : string) (C : Component)
  (changed : bool) (s : State) :
  C = hook key ∨ C = flat key →
  origin (fst (useEffect C changed s)) = origin s
  ∧ destination (fst (useEffect C changed s)) = destination s
  ∧ mode (fst (useEffect C changed s)) = mode s.
Proof.
  intros HC. unfold useEffect.
  destruct (origin s) eqn:Ho, (destination s) eqn:Hd,
    (isLoadingRoute s), changed; cbn [fst]; try by rewrite ?Ho, ?Hd.
  destruct (fetchRoute_keeps_points key C s HC) as (Ho' & Hd' & Hm').
  by rewrite Ho', Hd', Hm', Ho, Hd.
Qed.

(** X14: "Use My Location" changes the session only when the browser gives
    a position: without geolocation support or on a position error the
    configuration stays as it is and the user gets an alert.  A position
    becomes the origin even when an origin is already set, the destination
    is kept, and the name of the origin is asked for. *)
Theorem locate_click_sets_origin_or_alerts (key : string) (C : Component)
  (c : Config) (answer : Geolocation) :
  C = hook key ∨ C = flat key →
  match answer with
  | Position location =>
      origin (session (fst (step C c (LocateClick answer)))) = Some location
      ∧ destination (session (fst (step C c (LocateClick answer))))
        = destination (session c)
      ∧ In (Send (NameRequest location OriginSlot false))
          (snd (step C c (LocateClick answer)))
  | Unsupported =>
      step C c (LocateClick answer)
      = (c, [Alert "Geolocation is not supported by your browser."])
  | PositionError message =>
      step C c (LocateClick answer)
      = (c, [ConsoleError "Error fetching current location:" message;
             Alert
               "Unable to fetch your location. Please try again or select manually."])
  end.
Proof.
  intros HC. rewrite step_unfold. unfold handle.
  destruct answer as [|location|message].
  - assert (Hh : c_setCurrentLocation C Unsupported (session c)
                 = (session c,
                    [Alert "Geolocation is not supported by your browser."])).
    { by destruct HC as [-> | ->]. }
    rewrite Hh. cbn [stores_location]. rewrite deps_unchanged by reflexivity.
    rewrite useEffect_skips by (by left).
    cbn [fst snd sends]. rewrite !app_nil_r. by destruct c.
  - assert (Hh : c_setCurrentLocation C (Position location) (session c)
                 = (set_origin (Some location) (session c),
                    [Send (NameRequest location OriginSlot false)])).
    { by destruct HC as [-> | ->]. }
    rewrite Hh. cbn [fst snd session].
    set (ch := deps_changed _ _ _).
    destruct (useEffect_keeps_points key C ch
                (set_origin (Some location) (session c)) HC) as (Ho & Hd & _).
    rewrite Ho, Hd. split; [reflexivity|]. split; [reflexivity|].
    apply in_or_app. left. by left.
  - assert (Hh : c_setCurrentLocation C (PositionError message) (session c)
                 = (session c,
                    [ConsoleError "Error fetching current location:" message;
                     Alert
                       "Unable to fetch your location. Please try again or select manually."])).
    { by destruct HC as [-> | ->]. }
    rewrite Hh. cbn [stores_location]. rewrite deps_unchanged by reflexivity.
    rewrite useEffect_skips by (by left).
    cbn [fst snd sends]. rewrite !app_nil_r. by destruct c.
Qed.

Lemma locate_click_sets_origin_or_alerts_witness :
  origin
    (session (fst (step (hook "key") (after (hook "key") [MapClick london])
                     (LocateClick (Position paris)))))
  = Some paris.
Proof.
  apply (locate_click_sets_origin_or_alerts "key" (hook "key")
           (after (hook "key") [MapClick london]) (Position paris)).
  left. reflexivity.
Defined.

(** *** Reset and failure *)

(** X15: a reset sends nothing and cancels nothing: the requests pending
    before it are still pending after it, so the replies to them are still
    merged into the cleared session. *)
Theorem reset_keeps_pending_requests (key : string) (C : Component)
  (c : Config) :
  C = hook key ∨ C = flat key →
  step C c ResetClick
  = ({| session :=
          mkState None None "" "" [] 0 "" "" "" [] (mode (session c))
            (isLoadingRoute (session c)) "";
        pending := pending c |}, []).
Proof.
  intros HC. rewrite step_unfold. unfold handle.
  rewrite (resetRoute_record key C _ HC).
  rewrite useEffect_skips by (right; left; reflexivity).
  cbn [fst snd sends]. by rewrite !app_nil_r.
Qed.

Lemma reset_keeps_pending_requests_witness :
  pending
    (fst (step (flat "key") (after (flat "key") [MapClick london; MapClick paris])
            ResetClick))
  = [NameRequest london OriginSlot false;
     NameRequest paris DestinationSlot false;
     RouteRequest driving_car london paris].
Proof.
  rewrite (reset_keeps_pending_requests "key" (flat "key")).
  - vm_compute. reflexivity.
  - right. reflexivity.
Defined.

(** X16: when the pending route request is rejected, in any state the
    component has reached, the error message becomes "Failed to fetch
    route: " followed by the message of the rejection, the rejection is
    logged, the loading flag is lowered, and the route list, the distance
    and the duration are empty. *)
Theorem rejected_route_request_shows_message (key : string)
  (C : Component) (events : list Event) (k : nat) (m : TravelMode)
  (o d : LatLng.t) (message : string) :
  C = hook key ∨ C = flat key →
  pending (after C events) !! k = Some (RouteRequest m o d) →
  step C (after C events) (RouteReply k (Rejected message))
  = ({| session :=
          set_isLoadingRoute false
            (set_routeError ("Failed to fetch route: " +:+ message)
               (session (after C events)));
        pending := delete k (pending (after C events)) |},
     [ConsoleError "Error fetching route:" message])
  ∧ routes (session (after C events)) = []
  ∧ distance (session (after C events)) = ""
  ∧ duration (session (after C events)) = "".
Proof.
  intros HC Hk.
  rewrite (step_route_reply key C _ k m o d _ HC Hk).
  assert (Hh : c_fetchRoute_settle C (Rejected message)
                 (session (after C events))
               = (set_isLoadingRoute false
                    (set_routeError ("Failed to fetch route: " +:+ message)
                       (session (after C events))),
                  [ConsoleError "Error fetching route:" message])).
  { by destruct HC as [-> | ->]. }
  rewrite Hh. split; [reflexivity|].
  pose proof (after_consistent key C events HC) as Hc.
  destruct (pending_route_request _ k m o d Hc Hk) as [Hl Hr].
  destruct (after_coherent key C events HC) as (Hs & _).
  unfold shown_matches_selection in Hs. rewrite Hr in Hs. cbn in Hs.
  destruct Hs as [Hd Ht]. by repeat split.
Qed.

Lemma rejected_route_request_shows_message_witness :
  routeError
    (session
       (fst (step (hook "key")
               (after (hook "key") [MapClick london; MapClick paris])
               (RouteReply 2 (Rejected "Network Error")))))
  = "Failed to fetch route: Network Error".
Proof.
  destruct (rejected_route_request_shows_message "key" (hook "key")
              [MapClick london; MapClick paris] 2 driving_car london paris
              "Network Error") as [H _].
  - left. reflexivity.
  - vm_compute. reflexivity.
  - rewrite H. reflexivity.
Defined.

(** *** Coordinates and polylines *)

(** X17: [toRoute] keeps every point of the geometry, in order, reading
    each pair as longitude then latitude; it undoes the order in which
    [fetchRoute] writes the origin and the destination in the request. *)
Theorem route_coordinates_round_trip (feature : Feature.t)
  (o d : LatLng.t) (dist dur : Num.number) :
  map (λ p, (LatLng.lng p, LatLng.lat p))
      (Route.coordinates (Hook.toRoute feature))
  = Feature.geometry_coordinates feature
  ∧ length (Route.coordinates (Hook.toRoute feature))
    = length (Feature.geometry_coordinates feature)
  ∧ Route.coordinates
      (Hook.toRoute (Feature.mk (request_coordinates o d) dist dur))
    = [o; d]
  ∧ Route.coordinates (Flat.toRoute feature)
    = Route.coordinates (Hook.toRoute feature).
Proof.
  split; [|split; [|split]].
  - cbn. induction (Feature.geometry_coordinates feature) as [|[lng lat] l IH];
      [reflexivity|]. cbn. by rewrite IH.
  - cbn. by rewrite length_map.
  - by destruct o, d.
  - reflexivity.
Qed.

Lemma highlighted_polyline (s : State) (index : nat) (route : Route.t) :
  highlighted (polyline s index route)
  = (selectedRouteIndex s =? index)%nat.
Proof.
  unfold highlighted, polyline. cbn.
  by destruct (selectedRouteIndex s =? index)%nat.
Qed.

Lemma highlighted_count (s : State) (l : list Route.t) (k : nat) :
  length (List.filter highlighted (imap (λ i, polyline s (k + i)) l))
  = if decide (k ≤ selectedRouteIndex s < k + length l)%nat
    then 1%nat else 0%nat.
Proof.
  revert k. induction l as [|r l IH]; intros k.
  - cbn. case_decide; [lia|reflexivity].
  - rewrite imap_cons. cbn [List.filter].
    rewrite highlighted_polyline.
    rewrite (imap_ext _ (λ i, polyline s (S k + i))) by
      (intros i x _; cbn; f_equal; lia).
    destruct (Nat.eqb_spec (selectedRouteIndex s) (k + 0)) as [E | E].
    + cbn [length]. rewrite IH. repeat case_decide; lia.
    + rewrite IH. cbn [length]. repeat case_decide; lia.
Qed.

(** X18: one polyline is drawn per route, and whenever routes are there,
    in every state a component reaches, exactly one of them is drawn
    thick and opaque: the one at the selected index; in any state a
    polyline is highlighted exactly when its index is the selected one. *)
Theorem one_polyline_highlighted (key : string) (C : Component)
  (events : list Event) :
  C = hook key ∨ C = flat key →
  routes (session (after C events)) ≠ [] →
  length (polylines (session (after C events)))
  = length (routes (session (after C events)))
  ∧ length (List.filter highlighted (polylines (session (after C events))))
    = 1%nat
  ∧ (∀ i p,
       polylines (session (after C events)) !! i = Some p →
       highlighted p = true ↔ i = selectedRouteIndex (session (after C events))).
Proof.
  intros HC Hr.
  destruct (after_consistent key C events HC) as (_ & _ & Hv).
  specialize (Hv Hr). unfold polylines.
  split; [by rewrite length_imap|]. split.
  - rewrite (highlighted_count _ _ 0). case_decide; [reflexivity|lia].
  - intros i p Hp. rewrite list_lookup_imap in Hp.
    destruct (routes (session (after C events)) !! i) as [r|]; [|done].
    cbn in Hp. injection Hp as <-. rewrite highlighted_polyline.
    rewrite Nat.eqb_eq. split; congruence.
Qed.

Lemma one_polyline_highlighted_witness :
  length (List.filter highlighted
            (polylines (session (after (hook "key") sample_events))))
  = 1%nat.
Proof.
  apply (one_polyline_highlighted "key" (hook "key") sample_events).
  - left. reflexivity.
  - vm_compute. discriminate.
Defined.

(** *** Choosing the points *)

(** X19: in a state the component has reached with no origin, a click on
    the map makes the clicked point the origin and asks for its name;
    there is no destination then, so no route request is sent. *)
Theorem first_click_sets_origin (key : string) (C : Component)
  (events : list Event) (p : LatLng.t) :
  C = hook key ∨ C = flat key →
  origin (session (after C events)) = None →
  step C (after C events) (MapClick p)
  = ({| session := set_origin (Some p) (session (after C events));
        pending := pending (after C events) ++ [NameRequest p OriginSlot false] |},
     [Send (NameRequest p OriginSlot false)])
  ∧ destination (session (after C events)) = None.
Proof.
  intros HC Ho.
  destruct (after_coherent key C events HC) as (_ & _ & _ & _ & _ & Hd).
  specialize (Hd Ho). split; [|exact Hd].
  assert (Hh : c_LocationMarker_click C p (session (after C events))
               = (set_origin (Some p) (session (after C events)),
                  [Send (NameRequest p OriginSlot false)])).
  { destruct HC as [-> | ->]; cbn;
      unfold Hook.LocationMarker_click, Flat.LocationMarker_click;
      by rewrite Ho. }
  rewrite step_unfold. unfold handle. rewrite Hh.
  rewrite useEffect_skips by (right; right; left; exact Hd).
  cbn [fst snd sends]. by rewrite !app_nil_r.
Qed.

Lemma first_click_sets_origin_witness :
  origin
    (session (fst (step (hook "key")
                     (after (hook "key") [MapClick london; ResetClick])
                     (MapClick paris))))
  = Some paris.
Proof.
  destruct (first_click_sets_origin "key" (hook "key")
              [MapClick london; ResetClick] paris) as [H _].
  - left. reflexivity.
  - vm_compute. reflexivity.
  - rewrite H. reflexivity.
Defined.

Lemma useEffect_keeps_search (key : string) (C : Component)
  (changed : bool) (s : State) :
  C = hook key ∨ C = flat key →
  searchResults (fst (useEffect C changed s)) = searchResults s
  ∧ searchTerm (fst (useEffect C changed s)) = searchTerm s.
Proof.
  intros HC. unfold useEffect.
  destruct s as [so sd son sdn srs si sdist sdur sst ssr sm sl se].
  destruct HC as [-> | ->]; cbn; unfold_handlers; cbn;
    repeat case_match; by split.
Qed.

(** X20: a click on a search result makes the point of the result, with
    its [lat] as latitude and its [lon] as longitude, the origin when
    there is none and the destination otherwise, and asks for its name;
    the search results and the search term stay as they are until that
    name request settles. *)
Theorem result_click_selects_location (key : string) (C : Component)
  (c : Config) (index : nat) (result : SearchResult.t) :
  C = hook key ∨ C = flat key →
  searchResults (session c) !! index = Some result →
  let location :=
    LatLng.mk (SearchResult.lat result) (SearchResult.lon result) in
  let s' := session (fst (step C c (ResultClick index))) in
  match origin (session c) with
  | None =>
      origin s' = Some location
      ∧ destination s' = destination (session c)
      ∧ In (Send (NameRequest location OriginSlot true))
          (snd (step C c (ResultClick index)))
  | Some o =>
      origin s' = Some o
      ∧ destination s' = Some location
      ∧ In (Send (NameRequest location DestinationSlot true))
          (snd (step C c (ResultClick index)))
  end
  ∧ searchResults s' = searchResults (session c)
  ∧ searchTerm s' = searchTerm (session c).
Proof.
  intros HC Hi location s'. subst s'.
  rewrite step_unfold. unfold handle. rewrite Hi.
  set (ch := deps_changed _ _).
  destruct (origin (session c)) as [o|] eqn:Ho.
  - assert (Hh : c_selectLocation C (SearchResult.lat result)
                   (SearchResult.lon result) (session c)
                 = (set_destination (Some location) (session c),
                    [Send (NameRequest location DestinationSlot true)])).
    { destruct HC as [-> | ->]; cbn;
        unfold Hook.selectLocation, Flat.selectLocation; by rewrite Ho. }
    rewrite Hh. cbn [fst snd session].
    destruct (useEffect_keeps_points key C
                (ch (set_destination (Some location) (session c)))
                (set_destination (Some location) (session c)) HC)
      as (Ho' & Hd' & _).
    destruct (useEffect_keeps_search key C
                (ch (set_destination (Some location) (session c)))
                (set_destination (Some location) (session c)) HC)
      as (Hr' & Ht').
    rewrite Ho', Hd', Hr', Ht'. cbn. rewrite Ho.
    repeat split. by left.
  - assert (Hh : c_selectLocation C (SearchResult.lat result)
                   (SearchResult.lon result) (session c)
                 = (set_origin (Some location) (session c),
                    [Send (NameRequest location OriginSlot true)])).
    { destruct HC as [-> | ->]; cbn;
        unfold Hook.selectLocation, Flat.selectLocation; by rewrite Ho. }
    rewrite Hh. cbn [fst snd session].
    destruct (useEffect_keeps_points key C
                (ch (set_origin (Some location) (session c)))
                (set_origin (Some location) (session c)) HC)
      as (Ho' & Hd' & _).
    destruct (useEffect_keeps_search key C
                (ch (set_origin (Some location) (session c)))
                (set_origin (Some location) (session c)) HC)
      as (Hr' & Ht').
    rewrite Ho', Hd', Hr', Ht'. cbn.
    repeat split. by left.
Qed.

Lemma result_click_selects_location_witness :
  let c := after (hook "key")
             [SearchChange "lon"; SearchReply 0 (Resolved [sample_result])] in
  origin (session (fst (step (hook "key") c (ResultClick 0))))
  = Some (LatLng.mk (Num.of_Z 51) (Num.of_Z 0))
  ∧ searchResults (session (fst (step (hook "key") c (ResultClick 0))))
    = [sample_result].
Proof.
  intros c.
  destruct (result_click_selects_location "key" (hook "key") c 0
              sample_result) as ((Ho & _) & Hr & _).
  - left. reflexivity.
  - vm_compute. reflexivity.
  - split; [exact Ho|]. rewrite Hr. vm_compute. reflexivity.
Defined.
